(** * ap-move-lights-to-data: a shallow embedding of [move_lights_to_data.py]

    The development follows the Python module function by function:
    [find_light_directories], [get_target_from_path], [move_directory] and
    [process_light_directories].  The standard-library pieces the module
    leans on ([str.lower], [str.endswith], the [in] operator on strings,
    [pathlib.PurePosixPath], [os.walk], [sorted], [set]) are modelled next to
    it; the file system, [shutil], [ap_common] and the header reader are
    collaborators the module only calls, and stay abstract behind the
    [Platform] interface. *)

From Stdlib Require Import Ascii QArith Qabs.
From stdpp Require Import base list strings gmap sorting pretty.

Local Close Scope Q_scope.
Set Warnings "-register-all".

(** ** Python strings (ASCII fragment) *)

Module Str.

(** [c.lower()] on one character: only [A]..[Z] change. *)
Definition ascii_lower (c : ascii) : ascii :=
  let n := nat_of_ascii c in
  if (65 <=? n)%nat && (n <=? 90)%nat then ascii_of_nat (n + 32) else c.

(** [s.lower()]. *)
Fixpoint lower (s : string) : string :=
  match s with
  | "" => ""
  | String c s' => String (ascii_lower c) (lower s')
  end.

(** [s.startswith(p)]. *)
Fixpoint startswith (s p : string) : bool :=
  match p, s with
  | "", _ => true
  | String _ _, "" => false
  | String a p', String b s' => if Ascii.eqb a b then startswith s' p' else false
  end.

(** [s[n:]]. *)
Fixpoint drop (n : nat) (s : string) : string :=
  match n, s with
  | O, _ => s
  | S _, "" => ""
  | S n', String _ s' => drop n' s'
  end.

(** [s.endswith(suffix)]: the last [len(suffix)] characters are [suffix]. *)
Definition endswith (s suffix : string) : bool :=
  (String.length suffix <=? String.length s)%nat
  && String.eqb (drop (String.length s - String.length suffix) s) suffix.

(** [sub in s]: [sub] occurs at some position of [s]. *)
Fixpoint contains (sub s : string) : bool :=
  startswith s sub
  || match s with
     | "" => false
     | String _ s' => contains sub s'
     end.

(** [s.split("/")]. *)
Fixpoint split_sep (s : string) : list string :=
  match s with
  | "" => [""]
  | String c s' =>
      if Ascii.eqb c "/"%char then "" :: split_sep s'
      else match split_sep s' with
           | x :: xs => String c x :: xs
           | [] => [String c ""]
           end
  end.

(** ["/".join(l)]. *)
Fixpoint join_sep (l : list string) : string :=
  match l with
  | [] => ""
  | x :: xs =>
      match xs with
      | [] => x
      | _ :: _ => x +:+ "/" +:+ join_sep xs
      end
  end.

(** The line feed of ["\n"]. *)
Definition LF : string := String (ascii_of_nat 10) "".

End Str.

(** ** Exceptions and results *)

(** The exception classes that occur ([ValueError] from [relative_to],
    [OSError] and [shutil.Error] from the move); all of them derive from
    [Exception]. *)
Inductive exn_class := ValueError | OSError | ShutilError.

Record exception := Exn { exn_cls : exn_class; exn_msg : string }.

Global Instance exn_class_eq_dec : EqDecision exn_class.
Proof. solve_decision. Defined.

(** The outcome of evaluating a Python expression: a value or a raised
    exception. *)
Inductive result (A : Type) :=
| Ok (a : A)
| Raise (e : exception).
Global Arguments Ok {A} a.
Global Arguments Raise {A} e.

(** [try: body  except cls: handler]. *)
Definition try_except {A} (body : result A) (cls : exn_class) (handler : result A) : result A :=
  match body with
  | Ok a => Ok a
  | Raise e => if decide (exn_cls e = cls) then handler else Raise e
  end.

(** ** pathlib: pure POSIX paths *)

Module Pathlib.

(** A parsed path: the root (empty, one slash or two slashes) and the list
    of components after it. *)
Record PurePath := { root : string; tail : list string }.

Global Instance PurePath_eq_dec : EqDecision PurePath.
Proof. solve_decision. Defined.

Definition is_sep (c : ascii) : bool := Ascii.eqb c "/"%char.

(** [posixpath.splitroot]: exactly two leading slashes are kept apart. *)
Definition splitroot (p : string) : string * string :=
  match p with
  | String c1 p1 =>
      if is_sep c1 then
        match p1 with
        | String c2 p2 =>
            if is_sep c2 then
              match p2 with
              | String c3 _ => if is_sep c3 then ("/", p1) else ("//", p2)
              | "" => ("//", p2)
              end
            else ("/", p1)
        | "" => ("/", p1)
        end
      else ("", p)
  | "" => ("", p)
  end.

(** A component survives parsing when it is neither empty nor a dot. *)
Definition keep (x : string) : Prop := x ≠ "" ∧ x ≠ ".".

Global Instance keep_dec x : Decision (keep x).
Proof. unfold keep. apply _. Defined.

(** [Path(s)]. *)
Definition Path (s : string) : PurePath :=
  let '(r, rel) := splitroot s in
  {| root := r; tail := filter keep (Str.split_sep rel) |}.

(** [str(p)]. *)
Definition str (p : PurePath) : string :=
  match root p +:+ Str.join_sep (tail p) with
  | "" => "."
  | s => s
  end.

(** [p.name]. *)
Definition name (p : PurePath) : string := default "" (last (tail p)).

(** [p.parent]. *)
Definition parent (p : PurePath) : PurePath :=
  match tail p with
  | [] => p
  | _ :: _ => {| root := root p; tail := removelast (tail p) |}
  end.

(** [p / key] for a string [key]: an absolute key replaces [p]. *)
Definition truediv (p : PurePath) (key : string) : PurePath :=
  let k := Path key in
  if decide (root k = "") then {| root := root p; tail := tail p ++ tail k |}
  else k.

(** What is left of [l] after the prefix [pre], if [pre] is one. *)
Fixpoint strip_prefix (pre l : list string) : option (list string) :=
  match pre, l with
  | [], _ => Some l
  | _ :: _, [] => None
  | a :: pre', b :: l' => if decide (a = b) then strip_prefix pre' l' else None
  end.

(** [self.relative_to(other)]: raises [ValueError] unless [self] is
    [other] or below it. *)
Definition relative_to (self other : PurePath) : result PurePath :=
  if decide (root self = root other) then
    match strip_prefix (tail other) (tail self) with
    | Some rest => Ok {| root := ""; tail := rest |}
    | None => Raise (Exn ValueError (str self +:+ " is not in the subpath of " +:+ str other))
    end
  else Raise (Exn ValueError (str self +:+ " is not in the subpath of " +:+ str other)).

End Pathlib.
Import Pathlib.

(** ** The data the orchestrator handles *)

(** The verdict dictionary returned by [check_calibration_status]; the
    orchestrator reads exactly these eight keys. *)
Record CalibrationStatus := {
  has_lights : bool;
  light_count : nat;
  dark_count : nat;
  flat_count : nat;
  bias_count : nat;
  needs_bias : bool;
  is_complete : bool;
  reason : string
}.

(** The [results] dictionary of [process_light_directories]: six fixed keys. *)
Record Results := {
  moved : nat;
  skipped_no_lights : nat;
  skipped_no_darks : nat;
  skipped_no_flats : nat;
  skipped_no_bias : nat;
  errors : nat
}.

Definition results0 : Results :=
  {| moved := 0; skipped_no_lights := 0; skipped_no_darks := 0;
     skipped_no_flats := 0; skipped_no_bias := 0; errors := 0 |}.

(** [results[key] += 1], one definition per key. *)
Definition incr_moved (r : Results) : Results :=
  {| moved := S (moved r); skipped_no_lights := skipped_no_lights r;
     skipped_no_darks := skipped_no_darks r; skipped_no_flats := skipped_no_flats r;
     skipped_no_bias := skipped_no_bias r; errors := errors r |}.
Definition incr_skipped_no_lights (r : Results) : Results :=
  {| moved := moved r; skipped_no_lights := S (skipped_no_lights r);
     skipped_no_darks := skipped_no_darks r; skipped_no_flats := skipped_no_flats r;
     skipped_no_bias := skipped_no_bias r; errors := errors r |}.
Definition incr_skipped_no_darks (r : Results) : Results :=
  {| moved := moved r; skipped_no_lights := skipped_no_lights r;
     skipped_no_darks := S (skipped_no_darks r); skipped_no_flats := skipped_no_flats r;
     skipped_no_bias := skipped_no_bias r; errors := errors r |}.
Definition incr_skipped_no_flats (r : Results) : Results :=
  {| moved := moved r; skipped_no_lights := skipped_no_lights r;
     skipped_no_darks := skipped_no_darks r; skipped_no_flats := S (skipped_no_flats r);
     skipped_no_bias := skipped_no_bias r; errors := errors r |}.
Definition incr_skipped_no_bias (r : Results) : Results :=
  {| moved := moved r; skipped_no_lights := skipped_no_lights r;
     skipped_no_darks := skipped_no_darks r; skipped_no_flats := skipped_no_flats r;
     skipped_no_bias := S (skipped_no_bias r); errors := errors r |}.
Definition incr_errors (r : Results) : Results :=
  {| moved := moved r; skipped_no_lights := skipped_no_lights r;
     skipped_no_darks := skipped_no_darks r; skipped_no_flats := skipped_no_flats r;
     skipped_no_bias := skipped_no_bias r; errors := S (errors r) |}.

(** The sum of the six counters. *)
Definition total (r : Results) : nat :=
  moved r + skipped_no_lights r + skipped_no_darks r
  + skipped_no_flats r + skipped_no_bias r + errors r.

(** ** Directory trees and [os.walk] *)

(** What [os.scandir] shows of a directory: the names of the entries that are
    not directories, and the sub-directories by name. *)
Inductive tree := Dir (files : list string) (subdirs : list (string * tree)).

Definition files_of (t : tree) : list string := let 'Dir files _ := t in files.
Definition subdirs_of (t : tree) : list (string * tree) := let 'Dir _ subdirs := t in subdirs.

(** [posixpath.join(a, b)]. *)
Definition os_path_join (a b : string) : string :=
  if Str.startswith b "/" then b
  else if decide (a = "") then b
  else if Str.endswith a "/" then a +:+ b
  else a +:+ "/" +:+ b.

(** [os.walk(top)], top down, symbolic links not followed: one triple
    [(root, dirs, files)] per directory. *)
Fixpoint walk (top : string) (t : tree) : list (string * list string * list string) :=
  let 'Dir files subdirs := t in
  (top, subdirs.*1, files)
  :: flat_map (λ p, walk (os_path_join top p.1) p.2) subdirs.

(** No directory of the tree has a name that starts with a separator (no
    entry of a real directory does). *)
Fixpoint names_ok (t : tree) : bool :=
  let 'Dir _ subdirs := t in
  forallb (λ p, negb (Str.startswith p.1 "/") && names_ok p.2) subdirs.

(** [dir_in top t d t']: the tree [t] mounted at [top] holds, at the path
    [d], the directory [t'] (itself, or below one of its sub-directories). *)
Inductive dir_in : string → tree → string → tree → Prop :=
| dir_here top t : dir_in top t top t
| dir_below top t dirname sub d t' :
    (dirname, sub) ∈ subdirs_of t →
    dir_in (os_path_join top dirname) sub d t' →
    dir_in top t d t'.

(** Induction on trees, with the hypothesis for every sub-directory. *)
Fixpoint tree_rect' (P : tree → Prop)
    (step : ∀ files subdirs, Forall (λ p, P p.2) subdirs → P (Dir files subdirs))
    (t : tree) : P t :=
  match t as t0 return P t0 with
  | Dir files subdirs =>
      step files subdirs
        ((fix all (l : list (string * tree)) : Forall (λ p, P p.2) l :=
            match l as l0 return Forall (λ p, P p.2) l0 with
            | [] => @List.Forall_nil _ _
            | p :: l' => @List.Forall_cons _ _ p l' (tree_rect' P step p.2) (all l')
            end) subdirs)
  end.

(** ** Effects: the file system, the calls made on it, and standard output *)

(** What the module does to the outside, in order.  [Call_move_directory] marks
    an invocation of [move_directory] itself; the other events are calls to
    collaborators, with the exception they raised if any. *)
Inductive event :=
| Print (line : string)
| CheckCalibrationStatus (image_dir : string) (status : CalibrationStatus)
| Call_move_directory (source dest : string)
| Mkdir (path : string) (raised : option exception)
| ShutilMove (source dest : string) (raised : option exception)
| DeleteEmptyDirectories (root_dir : string) (debug : bool).

(** The collaborators outside this module.  Operations inside the [try] of
    [move_directory] may raise; they return the file system they leave
    behind together with the exception. *)
Class Platform := {
  FS : Type;
  (** [ap_common.replace_env_vars] *)
  replace_env_vars : string → string;
  (** the directory tree [os.walk] finds at a path, if there is one *)
  scandir_tree : FS → string → option tree;
  (** [Path.mkdir(parents=True, exist_ok=True)] *)
  path_mkdir : FS → string → FS * option exception;
  (** [shutil.move] *)
  shutil_move : FS → string → string → FS * option exception;
  (** [ap_common.delete_empty_directories] *)
  ap_delete_empty_directories : FS → string → bool → FS
}.

(** [matching.check_calibration_status(image_dir, debug)], as the orchestrator
    sees it: a verdict read off the current file system. *)
Definition Evaluator `{Platform} : Type := FS → string → bool → CalibrationStatus.

Section Effects.
Context `{Platform}.

(** A computation: from a file system to a value or an exception, the file
    system left behind, and the events in order. *)
Definition M (A : Type) : Type := FS → result A * FS * list event.

Definition ret {A} (a : A) : M A := λ fs, (Ok a, fs, []).

Definition bind {A B} (m : M A) (k : A → M B) : M B := λ fs,
  match m fs with
  | (Ok a, fs1, l1) => let '(r, fs2, l2) := k a fs1 in (r, fs2, l1 ++ l2)
  | (Raise e, fs1, l1) => (Raise e, fs1, l1)
  end.

Definition lift {A} (r : result A) : M A := λ fs, (r, fs, []).

Definition print (line : string) : M unit := λ fs, (Ok tt, fs, [Print line]).

Definition emit (e : event) : M unit := λ fs, (Ok tt, fs, [e]).

(** [if c: body] *)
Definition when (c : bool) (body : M unit) : M unit := if c then body else ret tt.

(** [try: body  except Exception as e: handler(e)]; every exception class
    of the model derives from [Exception]. *)
Definition try_except_Exception {A} (body : M A) (handler : exception → M A) : M A := λ fs,
  match body fs with
  | (Ok a, fs1, l1) => (Ok a, fs1, l1)
  | (Raise e, fs1, l1) => let '(r, fs2, l2) := handler e fs1 in (r, fs2, l1 ++ l2)
  end.

(** [for x in l: acc = body(x, acc)] *)
Fixpoint for_each {A S} (l : list A) (body : A → S → M S) (acc : S) : M S :=
  match l with
  | [] => ret acc
  | x :: l' => bind (body x acc) (for_each l' body)
  end.

(** The collaborators as computations. *)
Definition os_walk (top : string) : M (list (string * list string * list string)) := λ fs,
  (Ok (match scandir_tree fs top with Some t => walk top t | None => [] end), fs, []).

Definition mkdir_parents (path : string) : M unit := λ fs,
  match path_mkdir fs path with
  | (fs', None) => (Ok tt, fs', [Mkdir path None])
  | (fs', Some e) => (Raise e, fs', [Mkdir path (Some e)])
  end.

Definition shutil_move_call (source dest : string) : M unit := λ fs,
  match shutil_move fs source dest with
  | (fs', None) => (Ok tt, fs', [ShutilMove source dest None])
  | (fs', Some e) => (Raise e, fs', [ShutilMove source dest (Some e)])
  end.

Definition delete_empty_directories (root_dir : string) (debug : bool) : M unit := λ fs,
  (Ok tt, ap_delete_empty_directories fs root_dir debug, [DeleteEmptyDirectories root_dir debug]).

Definition call_check (check_calibration_status : Evaluator) (image_dir : string) (debug : bool)
  : M CalibrationStatus := λ fs,
  let status := check_calibration_status fs image_dir debug in
  (Ok status, fs, [CheckCalibrationStatus image_dir status]).

End Effects.

Declare Scope py_scope.
Delimit Scope py_scope with py.
Notation "'let*' x ':=' m 'in' k" := (bind m (λ x, k))
  (at level 10, x name, m at level 100, k at level 200) : py_scope.
Notation "m >> k" := (bind m (λ _, k))
  (at level 100, k at level 200, right associativity) : py_scope.

(** ** move_lights_to_data.py *)

Section MoveLightsToData.
Context `{Platform}.
Local Open Scope py_scope.

(** The extensions the scan accepts, in the order the loop tries them. *)
Definition SCAN_EXTENSIONS : list string := ["fits"; "fit"; "xisf"].

(** The inner loop of [find_light_directories]: [has_images] is set by the
    first extension some file name ends with, after lowering it. *)
Definition has_images (files : list string) : bool :=
  existsb (λ ext, existsb (λ f, Str.endswith (Str.lower f) ("." +:+ ext)) files)
          SCAN_EXTENSIONS.

(** The body of the walk loop: [light_dirs.add(root)] when the directory
    has images. *)
Definition scan_step (light_dirs : gset string)
    (entry : string * list string * list string) : gset string :=
  let '(root, _, files) := entry in
  if has_images files then {[ root ]} ∪ light_dirs else light_dirs.

(** [sorted(light_dirs)]: the elements of the set in ascending order. *)
Definition sorted (light_dirs : gset string) : list string :=
  merge_sort String.le (elements light_dirs).

Definition find_light_directories (source_dir : string) (debug : bool) : M (list string) :=
  let source_path := Path (replace_env_vars source_dir) in
  when debug (print ("Searching for light directories in: " +:+ str source_path)) >>
  let* entries := os_walk (str source_path) in
  let light_dirs := foldl scan_step ∅ entries in
  let result := sorted light_dirs in
  when debug (print ("Found " +:+ pretty (length result) +:+ " directories with image files")) >>
  ret result.

Definition get_target_from_path (light_dir source_dir : string) : result string :=
  let source_path := Path (replace_env_vars source_dir) in
  let light_path := Path light_dir in
  try_except
    (match relative_to light_path source_path with
     | Ok relative => Ok (str relative)
     | Raise e => Raise e
     end)
    ValueError
    (Ok (name light_path)).

Definition move_directory (source dest : string) (debug dry_run : bool) : M bool :=
  let source_path := Path source in
  let dest_path := Path dest in
  emit (Call_move_directory source dest) >>
  when (debug || dry_run)
    (print ("  Moving: " +:+ str source_path) >>
     print ("      To: " +:+ str dest_path)) >>
  if dry_run then ret true
  else
    try_except_Exception
      (mkdir_parents (str (parent dest_path)) >>
       shutil_move_call (str source_path) (str dest_path) >>
       ret true)
      (λ e, print ("  ERROR moving directory: " +:+ exn_msg e) >> ret false).

(** The skip bookkeeping of an incomplete directory: the first of the three
    words found in the lowered reason picks the counter; there is no
    [else]. *)
Definition track_skip_reason (reason : string) (results : Results) : Results :=
  if Str.contains "dark" (Str.lower reason) then incr_skipped_no_darks results
  else if Str.contains "flat" (Str.lower reason) then incr_skipped_no_flats results
  else if Str.contains "bias" (Str.lower reason) then incr_skipped_no_bias results
  else results.

(** The body of the [for image_dir in image_dirs] loop. *)
Definition process_image_dir (check_calibration_status : Evaluator)
    (source_dir : string) (dest_path : PurePath) (debug dry_run : bool)
    (image_dir : string) (results : Results) : M Results :=
  let* relative_path := lift (get_target_from_path image_dir source_dir) in
  print (Str.LF +:+ "Processing: " +:+ relative_path) >>
  let* status := call_check check_calibration_status image_dir debug in
  if negb (has_lights status) then
    print "  SKIP: No light frames found" >>
    ret (incr_skipped_no_lights results)
  else
    when debug
      (print ("  Lights: " +:+ pretty (light_count status) +:+ ", "
              +:+ "Darks: " +:+ pretty (dark_count status) +:+ ", "
              +:+ "Flats: " +:+ pretty (flat_count status) +:+ ", "
              +:+ "Bias: " +:+ pretty (bias_count status)) >>
       when (needs_bias status)
         (print "  Note: Bias required (dark exposure != light exposure)")) >>
    if negb (is_complete status) then
      print ("  SKIP: " +:+ reason status) >>
      ret (track_skip_reason (reason status) results)
    else
      print ("  Calibration complete: " +:+ pretty (dark_count status) +:+ " darks, "
             +:+ pretty (flat_count status) +:+ " flats"
             +:+ (if needs_bias status then ", " +:+ pretty (bias_count status) +:+ " bias" else "")) >>
      let dest_full := truediv dest_path relative_path in
      let* success := move_directory image_dir (str dest_full) debug dry_run in
      if success then
        print ("  MOVED to " +:+ str dest_full) >>
        ret (incr_moved results)
      else ret (incr_errors results).

Definition process_light_directories (check_calibration_status : Evaluator)
    (source_dir dest_dir : string) (debug dry_run : bool) : M Results :=
  let results := results0 in
  let source_path := Path (replace_env_vars source_dir) in
  let dest_path := Path (replace_env_vars dest_dir) in
  let* image_dirs := find_light_directories source_dir debug in
  match image_dirs with
  | [] =>
      print ("No image directories found in " +:+ str source_path) >>
      ret results
  | _ :: _ =>
      print ("Found " +:+ pretty (length image_dirs) +:+ " directories to check") >>
      let* results :=
        for_each image_dirs
          (process_image_dir check_calibration_status source_dir dest_path debug dry_run)
          results in
      when (negb dry_run && (0 <? moved results)%nat)
        (print (Str.LF +:+ "Cleaning up empty directories in " +:+ str source_path) >>
         delete_empty_directories (str source_path) debug) >>
      ret results
  end.

End MoveLightsToData.

(** ** matching.py, from the specification *)

Module Matching.

Inductive frame_type := LIGHT | DARK | FLAT | BIAS.

Global Instance frame_type_eq_dec : EqDecision frame_type.
Proof. solve_decision. Defined.

(** Modelled from the spec: the Frame Descriptor of section 3 (the module
    [matching.py] and the keyword tables of [config.py] are not part of the
    sources at hand).  A keyword the header lacks is [None]; a type tag
    that is missing or not one of the four is [None] as well. *)
Record Frame := {
  file_path : string;
  type : option frame_type;
  camera : option string;
  settemp : option Q;
  gain : option Z;
  offset : option Z;
  readoutmode : option string;
  exposure_seconds : option Q;
  date : option string;
  filter_name : option string
}.

(** Modelled from the spec: [LIGHT_REQUIRED_KEYWORDS] of section 3, the
    keys every light frame must carry (camera, settemp, gain, offset,
    readoutmode, exposure, filter, date). *)
Definition has_required_keywords (f : Frame) : bool :=
  bool_decide (is_Some (camera f)) && bool_decide (is_Some (settemp f))
  && bool_decide (is_Some (gain f)) && bool_decide (is_Some (offset f))
  && bool_decide (is_Some (readoutmode f)) && bool_decide (is_Some (exposure_seconds f))
  && bool_decide (is_Some (filter_name f)) && bool_decide (is_Some (date f)).

(** Modelled from the spec: the Frame Classifier of section 4.1
    ([get_frames_by_type]): the frames of each type in their input order;
    frames without a recognised type belong to no group. *)
Definition get_frames_by_type (frames : list Frame) (ty : frame_type) : list Frame :=
  List.filter (λ f, bool_decide (type f = Some ty)) frames.

Section Matcher.
(** Modelled from the spec: the single tolerance on [settemp] shared by
    dark and bias matching (section 4.2); its value is configuration. *)
Variable SETTEMP_TOLERANCE : Q.

Definition within_tolerance (a b : option Q) : bool :=
  match a, b with
  | Some x, Some y => Qle_bool (Qabs (x - y)) SETTEMP_TOLERANCE
  | _, _ => false
  end.

Definition same_exposure (a b : option Q) : bool :=
  match a, b with
  | Some x, Some y => Qeq_bool x y
  | _, _ => false
  end.

(** camera, gain, offset and readoutmode equal. *)
Definition same_sensor_setup (light cal : Frame) : bool :=
  bool_decide (camera light = camera cal) && bool_decide (gain light = gain cal)
  && bool_decide (offset light = offset cal)
  && bool_decide (readoutmode light = readoutmode cal).

(** Modelled from the spec: the relaxed dark rule of section 4.2, every
    key but the exposure. *)
Definition dark_matches_relaxed (light dark : Frame) : bool :=
  same_sensor_setup light dark && within_tolerance (settemp light) (settemp dark).

(** Modelled from the spec: the exact dark rule of section 4.2. *)
Definition dark_matches_exact (light dark : Frame) : bool :=
  dark_matches_relaxed light dark
  && same_exposure (exposure_seconds light) (exposure_seconds dark).

(** Modelled from the spec: [find_matching_darks] of section 4.2.  The
    flag paired with each dark is the bias-correctable tag: the exact
    matches untagged when there are some, otherwise the relaxed matches
    tagged. *)
Definition find_matching_darks (light : Frame) (darks : list Frame) : list (Frame * bool) :=
  match List.filter (dark_matches_exact light) darks with
  | [] => (λ d, (d, true)) <$> List.filter (dark_matches_relaxed light) darks
  | exact => (λ d, (d, false)) <$> exact
  end.

(** Modelled from the spec: [find_matching_flats] of section 4.2. *)
Definition find_matching_flats (light : Frame) (flats : list Frame) : list Frame :=
  List.filter (λ flat, same_sensor_setup light flat
                       && bool_decide (filter_name light = filter_name flat)) flats.

(** Modelled from the spec: [find_matching_bias] of section 4.2. *)
Definition find_matching_bias (light : Frame) (bias_frames : list Frame) : list Frame :=
  List.filter (λ b, same_sensor_setup light b
                    && within_tolerance (settemp light) (settemp b)) bias_frames.

(** Step 2 of section 4.3 over the lights in order: [None] at the first
    light no dark covers, otherwise the lights that need a bias. *)
Fixpoint check_darks (lights darks : list Frame) : option (list Frame) :=
  match lights with
  | [] => Some []
  | light :: rest =>
      match find_matching_darks light darks with
      | [] => None
      | (_, bias_correctable) :: _ =>
          match check_darks rest darks with
          | None => None
          | Some need => Some (if bias_correctable then light :: need else need)
          end
      end
  end.

Definition REASON_NO_LIGHTS : string := "No light frames found".
Definition REASON_NO_DARKS : string := "No matching dark frames found".
Definition REASON_NO_FLATS : string := "No matching flat frames found".
Definition REASON_NO_BIAS : string := "No matching bias frames found".

(** Modelled from the spec: the Completeness Evaluator of section 4.3
    ([check_calibration_status] on the frame descriptors of one
    directory).  The spec fixes the reason of the no-lights verdict word
    for word; of the other reasons it fixes only the frame type they
    cite. *)
Definition check_calibration_status (frames : list Frame) : CalibrationStatus :=
  let lights := List.filter has_required_keywords (get_frames_by_type frames LIGHT) in
  let darks := get_frames_by_type frames DARK in
  let flats := get_frames_by_type frames FLAT in
  let bias_frames := get_frames_by_type frames BIAS in
  let verdict (needs : bool) (complete : bool) (why : string) :=
    {| has_lights := negb (bool_decide (lights = []));
       light_count := length lights; dark_count := length darks;
       flat_count := length flats; bias_count := length bias_frames;
       needs_bias := needs; is_complete := complete; reason := why |} in
  match lights with
  | [] => verdict false false REASON_NO_LIGHTS
  | _ :: _ =>
      match check_darks lights darks with
      | None => verdict false false REASON_NO_DARKS
      | Some need =>
          let needs := negb (bool_decide (need = [])) in
          if negb (forallb (λ l, negb (bool_decide (find_matching_flats l flats = []))) lights)
          then verdict needs false REASON_NO_FLATS
          else if negb (forallb (λ l, negb (bool_decide (find_matching_bias l bias_frames = []))) need)
          then verdict needs false REASON_NO_BIAS
          else verdict needs true ""
      end
  end.

End Matcher.

End Matching.

(** The evaluator the orchestrator calls, built from the header reader of a
    platform: the frame descriptors of the directory are read and handed to
    the Completeness Evaluator. *)
Definition evaluator_of `{Platform} (tolerance : Q)
    (read_headers : FS → string → list Matching.Frame) : Evaluator :=
  λ fs image_dir _, Matching.check_calibration_status tolerance (read_headers fs image_dir).

(** ** A small concrete platform

    A file system that is one directory tree mounted at [/blink]; moving a
    directory takes it out of the tree, except that a directory named
    [locked] refuses to move.  Headers are read off the file names: the
    first letter of a name gives the frame type. *)

Module Demo.

Definition MOUNT : string := "/blink".

(** The sub-tree reached by following [names] down from [t]. *)
Fixpoint lookup_path (t : tree) (names : list string) : option tree :=
  match names with
  | [] => Some t
  | n :: names' =>
      (fix find (l : list (string * tree)) :=
         match l with
         | [] => None
         | (m, sub) :: l' => if decide (m = n) then lookup_path sub names' else find l'
         end) (subdirs_of t)
  end.

(** The tree without the directory at [names]. *)
Fixpoint remove_path (names : list string) (t : tree) : tree :=
  match names with
  | [] => t
  | [n] => Dir (files_of t) (List.filter (λ p, negb (bool_decide (p.1 = n))) (subdirs_of t))
  | n :: names' =>
      Dir (files_of t)
          ((λ p, if decide (p.1 = n) then (p.1, remove_path names' p.2) else p) <$> subdirs_of t)
  end.

Definition below_mount (path : string) : option (list string) :=
  match relative_to (Path path) (Path MOUNT) with
  | Ok rel => Some (tail rel)
  | Raise _ => None
  end.

Definition demo_move (fs : tree) (source dest : string) : tree * option exception :=
  match below_mount source with
  | Some names =>
      if decide (last names = Some "locked")
      then (fs, Some (Exn OSError "[Errno 13] Permission denied"))
      else (remove_path names fs, None)
  | None => (fs, Some (Exn OSError "[Errno 2] No such file or directory"))
  end.

Global Instance demo_platform : Platform := {|
  FS := tree;
  replace_env_vars := λ s, s;
  scandir_tree := λ fs path, if decide (path = MOUNT) then Some fs else None;
  path_mkdir := λ fs _, (fs, None);
  shutil_move := demo_move;
  ap_delete_empty_directories := λ fs _ _, fs
|}.

Definition frame_of_name (name : string) : Matching.Frame :=
  {| Matching.file_path := name;
     Matching.type :=
       match name with
       | String c _ =>
           if Ascii.eqb c "L" then Some Matching.LIGHT
           else if Ascii.eqb c "D" then Some Matching.DARK
           else if Ascii.eqb c "F" then Some Matching.FLAT
           else if Ascii.eqb c "B" then Some Matching.BIAS
           else None
       | "" => None
       end;
     Matching.camera := Some "ASI2600MM";
     Matching.settemp := Some (-10)%Q;
     Matching.gain := Some 100%Z;
     Matching.offset := Some 10%Z;
     Matching.readoutmode := Some "0";
     Matching.exposure_seconds := Some 300%Q;
     Matching.date := Some "2024-01-15";
     Matching.filter_name := Some "Ha" |}.

Definition read_headers (fs : tree) (image_dir : string) : list Matching.Frame :=
  match below_mount image_dir with
  | Some names =>
      match lookup_path fs names with
      | Some t => frame_of_name <$> files_of t
      | None => []
      end
  | None => []
  end.

Definition check : Evaluator := evaluator_of 1%Q read_headers.

(** The same verdicts with the inventory fields blanked and the bias flag
    flipped. *)
Definition check_blank : Evaluator := λ fs image_dir debug,
  let st := check fs image_dir debug in
  {| has_lights := has_lights st; light_count := 0; dark_count := 0;
     flat_count := 0; bias_count := 0; needs_bias := negb (needs_bias st);
     is_complete := is_complete st; reason := reason st |}.

Definition blink : tree :=
  Dir ["session.log"]
      [ ("M31", Dir ["L_0001.fits"; "D_0001.fits"; "F_0001.fits"] []);
        ("M42", Dir ["L_0001.FIT"; "D_0001.fit"] []);
        ("darks", Dir ["D_0001.xisf"] []);
        ("locked", Dir ["L_0001.fits"; "D_0001.fits"; "F_0001.fits"] []);
        ("notes", Dir ["readme.txt"] []) ].

(** A directory with images that holds another directory with images. *)
Definition nested : tree :=
  Dir [] [ ("M31", Dir ["L_0001.fits"] [ ("night2", Dir ["L_0002.fits"] []) ]) ].

End Demo.

(** ** Reading a trace *)

(** The directories handed to the evaluator, with the verdict it returned. *)
Definition examined (evs : list event) : list (string * CalibrationStatus) :=
  omap (λ e, match e with CheckCalibrationStatus d st => Some (d, st) | _ => None end) evs.

(** The invocations of [move_directory]: source and destination. *)
Definition attempts (evs : list event) : list (string * string) :=
  omap (λ e, match e with Call_move_directory s d => Some (s, d) | _ => None end) evs.

(** The invocations of [ap_common.delete_empty_directories]. *)
Definition cleanups (evs : list event) : list (string * bool) :=
  omap (λ e, match e with DeleteEmptyDirectories r dbg => Some (r, dbg) | _ => None end) evs.

(** A call that raised. *)
Definition is_failure (e : event) : bool :=
  match e with
  | Mkdir _ (Some _) | ShutilMove _ _ (Some _) => true
  | _ => false
  end.
Definition failures (evs : list event) : nat := length (List.filter is_failure evs).

(** The calls that may change the file system. *)
Definition is_fs_call (e : event) : bool :=
  match e with
  | Mkdir _ _ | ShutilMove _ _ _ | DeleteEmptyDirectories _ _ => true
  | _ => false
  end.
Definition fs_calls (evs : list event) : list event := List.filter is_fs_call evs.

(** Everything but standard output and the verdicts read. *)
Definition is_action (e : event) : bool :=
  match e with
  | Print _ | CheckCalibrationStatus _ _ => false
  | _ => true
  end.
Definition actions (evs : list event) : list event := List.filter is_action evs.

(** The verdict that lets a directory move. *)
Definition ready (st : CalibrationStatus) : bool := has_lights st && is_complete st.

(** Two verdicts that differ at most in the inventory and the bias flag. *)
Definition agree (st1 st2 : CalibrationStatus) : Prop :=
  has_lights st1 = has_lights st2 ∧ is_complete st1 = is_complete st2
  ∧ reason st1 = reason st2.

(** One run of a loop body after the other: the loop as a relation between
    the state before and the state after. *)
Inductive loop_run `{Platform} {A S : Type} (body : A → S → M S)
  : list A → S → FS → S → FS → list event → Prop :=
| loop_done acc fs : loop_run body [] acc fs acc fs []
| loop_step x l acc fs acc1 fs1 evs1 acc2 fs2 evs2 :
    body x acc fs = (Ok acc1, fs1, evs1) →
    loop_run body l acc1 fs1 acc2 fs2 evs2 →
    loop_run body (x :: l) acc fs acc2 fs2 (evs1 ++ evs2).

(** ** Vocabulary of the statements *)

(** A string free of separators. *)
Fixpoint no_sep (s : string) : bool :=
  match s with
  | "" => true
  | String c s' => negb (Ascii.eqb c "/") && no_sep s'
  end.

(** A component as parsing produces them: kept, and free of separators. *)
Definition comp_ok (x : string) : Prop := keep x ∧ no_sep x = true.

(** A file name with one of the three image extensions, letter case
    ignored. *)
Definition image_name (f : string) : Prop :=
  ∃ stem, Str.lower f = stem +:+ ".fits" ∨ Str.lower f = stem +:+ ".fit"
          ∨ Str.lower f = stem +:+ ".xisf".

(** A reason that names one of the three calibration types, whatever the
    case of its letters. *)
Definition cites_type (reason : string) : bool :=
  Str.contains "dark" (Str.lower reason) || Str.contains "flat" (Str.lower reason)
  || Str.contains "bias" (Str.lower reason).

(** The relative path [get_target_from_path] settles on. *)
Definition target_of `{Platform} (source_dir image_dir : string) : string :=
  match get_target_from_path image_dir source_dir with
  | Ok rel => rel
  | Raise _ => ""
  end.

(** Where the loop sends a directory. *)
Definition destination `{Platform} (source_dir : string) (dest_path : PurePath)
  (image_dir : string) : string :=
  str (truediv dest_path (target_of source_dir image_dir)).

(** ** The command line: [main] *)

Module Cli.




End Cli.

(** ** More vocabulary *)

(** The lines written to standard output. *)
Definition printed (evs : list event) : list string :=
  omap (λ e, match e with Print line => Some line | _ => None end) evs.

(** The verdicts by the counter the loop gives them; [uncounted] is the
    incomplete verdict whose reason names none of the three types. *)
Definition lacks_lights (st : CalibrationStatus) : bool := negb (has_lights st).
Definition incomplete (st : CalibrationStatus) : bool :=
  has_lights st && negb (is_complete st).
Definition blames_dark (st : CalibrationStatus) : bool :=
  incomplete st && Str.contains "dark" (Str.lower (reason st)).
Definition blames_flat (st : CalibrationStatus) : bool :=
  incomplete st && negb (Str.contains "dark" (Str.lower (reason st)))
  && Str.contains "flat" (Str.lower (reason st)).
Definition blames_bias (st : CalibrationStatus) : bool :=
  incomplete st && negb (Str.contains "dark" (Str.lower (reason st)))
  && negb (Str.contains "flat" (Str.lower (reason st)))
  && Str.contains "bias" (Str.lower (reason st)).
Definition uncounted (st : CalibrationStatus) : bool :=
  incomplete st && negb (cites_type (reason st)).

(** How many of the examined directories got a verdict of a kind. *)
Definition count_verdicts (kind : CalibrationStatus → bool)
    (ex : list (string * CalibrationStatus)) : nat :=
  length (List.filter (λ p, kind p.2) ex).

(** A name as a directory entry has it: not empty, not a dot, no
    separator. *)
Definition comp_okb (x : string) : bool := bool_decide (keep x) && no_sep x.

(** Every directory of the tree has such a name. *)
Fixpoint names_proper (t : tree) : bool :=
  let 'Dir _ subdirs := t in
  forallb (λ p, comp_okb p.1 && names_proper p.2) subdirs.

(** Two trees that list the same entries, in whatever order: the same files
    up to order, and sub-directories that pair up by name, down the tree. *)
Inductive same_listing : tree → tree → Prop :=
| same_listing_intro files1 files2 subdirs1 subdirs2 :
    files1 ≡ₚ files2 →
    (∀ p, p ∈ subdirs1 → ∃ q, q ∈ subdirs2 ∧ p.1 = q.1 ∧ same_listing p.2 q.2) →
    (∀ q, q ∈ subdirs2 → ∃ p, p ∈ subdirs1 ∧ p.1 = q.1 ∧ same_listing p.2 q.2) →
    same_listing (Dir files1 subdirs1) (Dir files2 subdirs2).

(** More sample data. *)
Module Samples.

(** [Demo.nested] with a second night, and the same tree as another
    [scandir] order could list it. *)
Definition two_nights : tree :=
  Dir ["session.log"]
      [ ("M31", Dir ["L_0001.fits"; "D_0001.fits"]
                    [ ("night1", Dir ["L_0002.fits"] []);
                      ("night2", Dir ["notes.txt"; "L_0003.XISF"] []) ]) ].

Definition two_nights_shuffled : tree :=
  Dir ["session.log"]
      [ ("M31", Dir ["D_0001.fits"; "L_0001.fits"]
                    [ ("night2", Dir ["L_0003.XISF"; "notes.txt"] []);
                      ("night1", Dir ["L_0002.fits"] []) ]) ].

(** A platform on which no directory can be created. *)
Definition readonly_platform : Platform := {|
  FS := tree;
  replace_env_vars := λ s, s;
  scandir_tree := λ fs path, if decide (path = Demo.MOUNT) then Some fs else None;
  path_mkdir := λ fs _, (fs, Some (Exn OSError "[Errno 30] Read-only file system"));
  shutil_move := Demo.demo_move;
  ap_delete_empty_directories := λ fs _ _, fs
|}.


End Samples.

(** * Properties *)

(** ** The model at work *)

Example Path_absolute :
  Path "/data//10_Blink/./M31/" = {| root := "/"; tail := ["data"; "10_Blink"; "M31"] |}.
Proof. reflexivity. Qed.

Example Path_two_slashes : Path "//nas/blink" = {| root := "//"; tail := ["nas"; "blink"] |}.
Proof. reflexivity. Qed.

Example str_of_empty_path : str (Path "") = ".".
Proof. reflexivity. Qed.

Example lower_mixed_case : Str.lower "Light_0001.FITS" = "light_0001.fits".
Proof. reflexivity. Qed.

Example target_below_source :
  get_target_from_path (H := Demo.demo_platform) "/blink/M31/DATE_2024-01-15" "/blink"
  = Ok "M31/DATE_2024-01-15".
Proof. reflexivity. Qed.

Example target_elsewhere :
  get_target_from_path (H := Demo.demo_platform) "/other/M31/DATE_2024-01-15" "/blink"
  = Ok "DATE_2024-01-15".
Proof. reflexivity. Qed.

Example scan_of_blink :
  (find_light_directories "/blink" false Demo.blink).1.1
  = Ok ["/blink/M31"; "/blink/M42"; "/blink/darks"; "/blink/locked"].
Proof. by vm_compute. Qed.

Example run_on_blink :
  (process_light_directories Demo.check "/blink" "/data" false false Demo.blink).1.1
  = Ok {| moved := 1; skipped_no_lights := 1; skipped_no_darks := 0;
          skipped_no_flats := 1; skipped_no_bias := 0; errors := 1 |}.
Proof. by vm_compute. Qed.

Example actions_on_blink :
  actions (process_light_directories Demo.check "/blink" "/data" false false Demo.blink).2
  = [ Call_move_directory "/blink/M31" "/data/M31";
      Mkdir "/data" None;
      ShutilMove "/blink/M31" "/data/M31" None;
      Call_move_directory "/blink/locked" "/data/locked";
      Mkdir "/data" None;
      ShutilMove "/blink/locked" "/data/locked"
        (Some (Exn OSError "[Errno 13] Permission denied"));
      DeleteEmptyDirectories "/blink" false ].
Proof. by vm_compute. Qed.

Example skip_reason_flat :
  track_skip_reason "No matching FLAT frames for filter Ha" results0
  = incr_skipped_no_flats results0.
Proof. reflexivity. Qed.

(** A reason with none of the three words falls through the cascade. *)
Example skip_reason_other :
  track_skip_reason "Unreadable headers" results0 = results0.
Proof. reflexivity. Qed.

(** ** Strings *)

Section StrFacts.

Lemma str_app_cons (c : ascii) (a b : string) : String c a +:+ b = String c (a +:+ b).
Proof. reflexivity. Qed.

Lemma str_app_nil_l (b : string) : "" +:+ b = b.
Proof. reflexivity. Qed.

Lemma str_app_nil_r (s : string) : s +:+ "" = s.
Proof. induction s; rewrite ?str_app_cons; by f_equal. Qed.

Lemma str_app_assoc (a b c : string) : (a +:+ b) +:+ c = a +:+ b +:+ c.
Proof. induction a; rewrite ?str_app_cons, ?str_app_nil_l; by f_equal. Qed.

Lemma str_length_app (a b : string) :
  String.length (a +:+ b) = String.length a + String.length b.
Proof. induction a; rewrite ?str_app_cons, ?str_app_nil_l; simpl; by f_equal. Qed.

Lemma drop_length_app (a b : string) : Str.drop (String.length a) (a +:+ b) = b.
Proof.
  induction a; rewrite ?str_app_cons, ?str_app_nil_l; simpl; [by destruct b|done].
Qed.

Lemma drop_split (n : nat) (s : string) :
  n ≤ String.length s → ∃ pre, s = pre +:+ Str.drop n s ∧ String.length pre = n.
Proof.
  revert s. induction n as [|n IH]; intros s Hn.
  { exists "". by destruct s. }
  destruct s as [|c s]; simpl in *; [lia|].
  destruct (IH s) as (pre & Hs & Hlen); [lia|].
  exists (String c pre). rewrite str_app_cons. simpl. split; by f_equal.
Qed.

(** [endswith] says what it should: the string is something followed by
    the suffix. *)
Lemma endswith_spec (s suffix : string) :
  Str.endswith s suffix = true ↔ ∃ pre, s = pre +:+ suffix.
Proof.
  unfold Str.endswith. rewrite andb_true_iff, Nat.leb_le, String.eqb_eq. split.
  - intros [Hle Hdrop].
    destruct (drop_split (String.length s - String.length suffix) s) as (pre & Hs & _); [lia|].
    exists pre. by rewrite Hdrop in Hs.
  - intros [pre ->]. rewrite str_length_app. split; [lia|].
    replace (String.length pre + String.length suffix - String.length suffix)
      with (String.length pre) by lia.
    apply drop_length_app.
Qed.

Lemma split_sep_nonempty (s : string) : Str.split_sep s ≠ [].
Proof. destruct s as [|c s]; simpl; [done|]. by repeat case_match. Qed.

Lemma split_sep_app_sep (a b : string) :
  Str.split_sep (a +:+ "/" +:+ b) = Str.split_sep a ++ Str.split_sep b.
Proof.
  induction a as [|c a IH]; [done|]. rewrite str_app_cons. simpl.
  rewrite IH. destruct (Ascii.eqb c "/"); [done|].
  pose proof (split_sep_nonempty a). by destruct (Str.split_sep a).
Qed.

Lemma split_sep_no_sep (x : string) : no_sep x = true → Str.split_sep x = [x].
Proof.
  induction x as [|c x IH]; simpl; [done|].
  intros [Hc Hx]%andb_prop. apply negb_true_iff in Hc. rewrite Hc, (IH Hx). done.
Qed.

Lemma split_sep_parts (s : string) : Forall (λ x, no_sep x = true) (Str.split_sep s).
Proof.
  induction s as [|c s IH]; simpl; [by repeat constructor|].
  destruct (Ascii.eqb c "/") eqn:Hc; [by constructor|].
  destruct (Str.split_sep s) as [|x xs]; [by repeat constructor; simpl; rewrite Hc|].
  inversion_clear IH. constructor; [|done]. simpl. by rewrite Hc.
Qed.

(** Splitting undoes joining when the parts hold no separator. *)
Lemma split_sep_join_sep (l : list string) :
  l ≠ [] → Forall (λ x, no_sep x = true) l → Str.split_sep (Str.join_sep l) = l.
Proof.
  induction l as [|x l IH]; [done|]. intros _ Hl. inversion_clear Hl as [|?? Hx Hl'].
  destruct l as [|y l]; [by apply split_sep_no_sep|].
  change (Str.join_sep (x :: y :: l)) with (x +:+ "/" +:+ Str.join_sep (y :: l)).
  rewrite split_sep_app_sep, split_sep_no_sep, IH; done.
Qed.

Lemma join_sep_head (x : string) (l : list string) :
  ∃ rest, Str.join_sep (x :: l) = x +:+ rest.
Proof.
  destruct l as [|y l]; [exists ""; simpl; by rewrite str_app_nil_r|].
  by exists ("/" +:+ Str.join_sep (y :: l)).
Qed.

End StrFacts.

(** ** Paths *)

Section PathFacts.

Lemma is_sep_true c : is_sep c = true → c = "/"%char.
Proof. apply Ascii.eqb_eq. Qed.

Lemma filter_keep_empty l : filter keep ("" :: l) = filter keep l.
Proof. rewrite filter_cons_False; [done|]. by intros [? _]. Qed.

(** Leading separators only make empty components, so the components of a
    path are those of the whole string. *)
Lemma tail_Path (s : string) : tail (Path s) = filter keep (Str.split_sep s).
Proof.
  unfold Path, splitroot.
  destruct s as [|c1 p1]; [done|].
  destruct (is_sep c1) eqn:H1; [|done]. apply is_sep_true in H1 as ->.
  change (Str.split_sep (String "/" p1)) with ("" :: Str.split_sep p1).
  rewrite filter_keep_empty.
  destruct p1 as [|c2 p2]; [done|].
  destruct (is_sep c2) eqn:H2; [|done]. apply is_sep_true in H2 as ->.
  change (Str.split_sep (String "/" p2)) with ("" :: Str.split_sep p2).
  rewrite filter_keep_empty.
  destruct p2 as [|c3 p3]; [done|].
  destruct (is_sep c3) eqn:H3; [|done]. simpl.
  change (Str.split_sep (String "/" (String c3 p3))) with ("" :: Str.split_sep (String c3 p3)).
  by rewrite filter_keep_empty.
Qed.

Lemma root_Path_cases (s : string) :
  root (Path s) = "" ∨ root (Path s) = "/" ∨ root (Path s) = "//".
Proof. unfold Path, splitroot. repeat case_match; simplify_eq; simpl; auto. Qed.

Lemma Path_tail_ok (s : string) : Forall comp_ok (tail (Path s)).
Proof.
  rewrite tail_Path. apply Forall_forall. intros x [Hk Hx]%list_elem_of_filter.
  split; [done|]. pose proof (split_sep_parts s) as Hall.
  rewrite Forall_forall in Hall. by apply Hall.
Qed.

Lemma filter_keep_ok (l : list string) : Forall comp_ok l → filter keep l = l.
Proof.
  induction 1 as [|x l [Hk _] _ IH]; [done|]. by rewrite filter_cons_True, IH.
Qed.

Lemma comp_ok_no_sep (l : list string) :
  Forall comp_ok l → Forall (λ x, no_sep x = true) l.
Proof. intros Hl. eapply Forall_impl; [done|]. by intros x [_ ?]. Qed.

(** The text of a non-empty list of components starts with a character
    that is no separator. *)
Lemma join_sep_starts (x : string) (l : list string) :
  comp_ok x → ∃ c rest, Str.join_sep (x :: l) = String c rest ∧ is_sep c = false.
Proof.
  intros [[Hne _] Hns]. destruct (join_sep_head x l) as [rest ->].
  destruct x as [|c x]; [done|]. simpl in Hns.
  apply andb_prop in Hns as [Hc _]. apply negb_true_iff in Hc.
  exists c, (x +:+ rest). by rewrite str_app_cons.
Qed.

Lemma split_join_ok (l : list string) :
  Forall comp_ok l → filter keep (Str.split_sep (Str.join_sep l)) = l.
Proof.
  intros Hl. destruct l as [|x l]; [done|].
  rewrite split_sep_join_sep; [by apply filter_keep_ok|done|by apply comp_ok_no_sep].
Qed.

(** Parsing the text of a parsed path gives the path back. *)
Lemma Path_str (p : PurePath) :
  root p = "" ∨ root p = "/" ∨ root p = "//" →
  Forall comp_ok (tail p) →
  Path (str p) = p.
Proof.
  destruct p as [r l]. simpl. intros Hr Hl.
  pose proof (split_join_ok l Hl) as Hsplit.
  unfold str. simpl.
  destruct l as [|x l].
  - destruct Hr as [->|[->| ->]]; reflexivity.
  - inversion Hl as [|?? Hx Hl']. subst.
    destruct (join_sep_starts x l Hx) as (c & rest & Hj & Hc).
    rewrite Hj in *.
    destruct Hr as [->|[->| ->]]; rewrite ?str_app_cons, ?str_app_nil_l;
      unfold Path, splitroot; simpl; rewrite ?Hc; by rewrite Hsplit.
Qed.

Lemma Path_str_Path (s : string) : Path (str (Path s)) = Path s.
Proof. apply Path_str; [apply root_Path_cases|apply Path_tail_ok]. Qed.

Lemma strip_prefix_spec (pre l rest : list string) :
  strip_prefix pre l = Some rest ↔ l = pre ++ rest.
Proof.
  revert l. induction pre as [|a pre IH]; intros l; simpl.
  { split; [by intros [= ->]|by intros ->]. }
  destruct l as [|b l]; [by split|].
  destruct (decide (a = b)) as [->|Hne].
  - rewrite IH. split; [by intros ->|by intros [= ->]].
  - split; [done|]. intros [= -> _]. done.
Qed.

(** [relative_to] succeeds exactly below (or at) the other path. *)
Lemma relative_to_below (self other : PurePath) (rel : list string) :
  root self = root other → tail self = tail other ++ rel →
  relative_to self other = Ok {| root := ""; tail := rel |}.
Proof.
  intros Hr Ht. unfold relative_to. rewrite decide_True by done.
  apply strip_prefix_spec in Ht. by rewrite Ht.
Qed.

Lemma relative_to_Ok (self other r : PurePath) :
  relative_to self other = Ok r →
  root r = "" ∧ root self = root other ∧ tail self = tail other ++ tail r.
Proof.
  unfold relative_to. destruct (decide _) as [Hr|]; [|done].
  destruct (strip_prefix _ _) as [rest|] eqn:Hs; [|done].
  intros [= <-]. apply strip_prefix_spec in Hs. done.
Qed.

(** Joining a parsed relative path onto a path appends its components. *)
Lemma truediv_str_rel (p : PurePath) (rel : list string) :
  Forall comp_ok rel →
  truediv p (str {| root := ""; tail := rel |})
  = {| root := root p; tail := tail p ++ rel |}.
Proof.
  intros Hrel. unfold truediv. rewrite Path_str by (simpl; auto). done.
Qed.

End PathFacts.

(** ** Joining names onto paths, and the walk *)

Section WalkFacts.

Lemma not_startswith_sep (y : string) :
  Str.startswith y "/" = false → y = "" ∨ ∃ c y', y = String c y' ∧ is_sep c = false.
Proof.
  destruct y as [|c y]; [by left|]. intros Hc. right. exists c, y.
  split; [done|]. unfold is_sep.
  destruct (Ascii.eqb_spec c "/") as [->|]; [|done].
  exfalso. revert Hc. by destruct y.
Qed.

Lemma endswith_sep_1 : Str.endswith "/" "/" = true.
Proof. reflexivity. Qed.
Lemma endswith_sep_2 : Str.endswith "//" "/" = true.
Proof. reflexivity. Qed.

(** Text appended to a string leaves the root it parses to alone, unless
    the string is all root and the text brings another separator. *)
Lemma root_Path_app (a y : string) :
  a ≠ "" →
  (Str.endswith a "/" = true → Str.startswith y "/" = false) →
  root (Path (a +:+ y)) = root (Path a).
Proof.
  intros Ha Hy. unfold Path, splitroot.
  destruct a as [|c1 a]; [done|]. rewrite str_app_cons.
  destruct (is_sep c1) eqn:H1; [|done]. apply is_sep_true in H1 as ->.
  destruct a as [|c2 a].
  { rewrite str_app_nil_l.
    destruct (not_startswith_sep y (Hy endswith_sep_1)) as [->|(c & y' & -> & Hc)];
      [done|by rewrite Hc]. }
  rewrite str_app_cons.
  destruct (is_sep c2) eqn:H2; [|done]. apply is_sep_true in H2 as ->.
  destruct a as [|c3 a].
  { rewrite str_app_nil_l.
    destruct (not_startswith_sep y (Hy endswith_sep_2)) as [->|(c & y' & -> & Hc)];
      [done|by rewrite Hc]. }
  rewrite str_app_cons. by destruct (is_sep c3).
Qed.

Lemma root_Path_relative (n : string) : Str.startswith n "/" = false → root (Path n) = "".
Proof.
  intros Hn. destruct (not_startswith_sep n Hn) as [->|(c & y' & -> & Hc)]; [done|].
  unfold Path, splitroot. by rewrite Hc.
Qed.

(** [os.path.join] followed by parsing: the root stays, the components of
    the name are appended. *)
Lemma Path_os_path_join (a n : string) :
  Str.startswith n "/" = false →
  root (Path (os_path_join a n)) = root (Path a)
  ∧ tail (Path (os_path_join a n)) = tail (Path a) ++ filter keep (Str.split_sep n).
Proof.
  intros Hn. unfold os_path_join. rewrite Hn.
  destruct (decide (a = "")) as [->|Ha].
  { split; [by apply root_Path_relative|]. by rewrite !tail_Path. }
  destruct (Str.endswith a "/") eqn:He.
  - split; [apply root_Path_app; done|].
    apply endswith_spec in He as [a0 ->].
    rewrite !tail_Path, str_app_assoc, split_sep_app_sep, filter_app.
    rewrite <- (str_app_nil_r (a0 +:+ "/")), str_app_assoc, split_sep_app_sep, filter_app.
    by rewrite (app_nil_r (filter keep (Str.split_sep a0))).
  - split; [apply root_Path_app; [done|by rewrite He]|].
    by rewrite !tail_Path, split_sep_app_sep, filter_app.
Qed.

Lemma names_ok_subdirs files subdirs :
  names_ok (Dir files subdirs) = true →
  Forall (λ p, Str.startswith p.1 "/" = false ∧ names_ok p.2 = true) subdirs.
Proof.
  simpl. rewrite forallb_forall, Forall_forall. intros Hall p Hp%list_elem_of_In.
  apply Hall in Hp. apply andb_prop in Hp as [Hn Hsub]. by apply negb_true_iff in Hn.
Qed.

(** The walk yields the directories of the tree, each with its listing. *)
Lemma walk_spec (t : tree) :
  ∀ top d dirs files,
    (d, dirs, files) ∈ walk top t
    ↔ ∃ t', dir_in top t d t' ∧ dirs = (subdirs_of t').*1 ∧ files = files_of t'.
Proof.
  induction t as [files0 subdirs IH] using tree_rect'. intros top d dirs files.
  simpl. rewrite elem_of_cons, list_elem_of_In, in_flat_map.
  rewrite Forall_forall in IH. split.
  - intros [[= -> -> ->]|([n sub] & Hin%list_elem_of_In & Hd%list_elem_of_In)].
    + exists (Dir files0 subdirs). split; [constructor|done].
    + apply (IH _ Hin) in Hd as (t' & Hdir & -> & ->).
      exists t'. split; [|done]. by econstructor.
  - intros (t' & Hdir & -> & ->). inversion Hdir; subst.
    + by left.
    + right. match goal with Hin : (_, _) ∈ _ |- _ => rename Hin into Hsub end.
      simpl in Hsub. eexists. split; [by apply list_elem_of_In|].
      apply list_elem_of_In, (IH _ Hsub). eauto.
Qed.

(** Every directory the walk yields parses to a path at or below the top. *)
Lemma dir_in_below top t d t' :
  dir_in top t d t' → names_ok t = true →
  root (Path d) = root (Path top) ∧ ∃ rel, tail (Path d) = tail (Path top) ++ rel.
Proof.
  induction 1 as [top t|top t n sub d t' Hin Hdir IH]; intros Hok.
  { split; [done|]. exists []. by rewrite app_nil_r. }
  destruct t as [files subdirs]. simpl in Hin.
  pose proof (names_ok_subdirs _ _ Hok) as Hall.
  rewrite Forall_forall in Hall. destruct (Hall _ Hin) as [Hn Hsub]. simpl in *.
  destruct (IH Hsub) as (Hroot & rel & Htail).
  destruct (Path_os_path_join top n Hn) as [Hr Ht].
  split; [congruence|]. rewrite Htail, Ht, <- app_assoc. eauto.
Qed.

End WalkFacts.

Section TraceFacts.

Lemma examined_app l1 l2 : examined (l1 ++ l2) = examined l1 ++ examined l2.
Proof. apply omap_app. Qed.
Lemma attempts_app l1 l2 : attempts (l1 ++ l2) = attempts l1 ++ attempts l2.
Proof. apply omap_app. Qed.
Lemma cleanups_app l1 l2 : cleanups (l1 ++ l2) = cleanups l1 ++ cleanups l2.
Proof. apply omap_app. Qed.
Lemma failures_app l1 l2 : failures (l1 ++ l2) = failures l1 + failures l2.
Proof. unfold failures. by rewrite List.filter_app, length_app. Qed.
Lemma fs_calls_app l1 l2 : fs_calls (l1 ++ l2) = fs_calls l1 ++ fs_calls l2.
Proof. apply List.filter_app. Qed.
Lemma actions_app l1 l2 : actions (l1 ++ l2) = actions l1 ++ actions l2.
Proof. apply List.filter_app. Qed.

Lemma failures_nil : failures [] = 0.
Proof. done. Qed.
Lemma attempts_nil : attempts [] = [].
Proof. done. Qed.

Lemma examined_cons e l :
  examined (e :: l) =
    match e with CheckCalibrationStatus d st => (d, st) :: examined l | _ => examined l end.
Proof. by destruct e. Qed.
Lemma attempts_cons e l :
  attempts (e :: l) =
    match e with Call_move_directory s d => (s, d) :: attempts l | _ => attempts l end.
Proof. by destruct e. Qed.
Lemma cleanups_cons e l :
  cleanups (e :: l) =
    match e with DeleteEmptyDirectories r dbg => (r, dbg) :: cleanups l | _ => cleanups l end.
Proof. by destruct e. Qed.
Lemma failures_cons e l :
  failures (e :: l) = (if is_failure e then 1 else 0) + failures l.
Proof. unfold failures. simpl. by destruct (is_failure e). Qed.
Lemma fs_calls_cons e l :
  fs_calls (e :: l) = if is_fs_call e then e :: fs_calls l else fs_calls l.
Proof. done. Qed.
Lemma actions_cons e l :
  actions (e :: l) = if is_action e then e :: actions l else actions l.
Proof. done. Qed.

(** The same, ready for rewriting when the head event is known. *)
Lemma examined_hit d st l :
  examined (CheckCalibrationStatus d st :: l) = (d, st) :: examined l.
Proof. done. Qed.
Lemma examined_skip e l :
  (if e is CheckCalibrationStatus _ _ then false else true) = true →
  examined (e :: l) = examined l.
Proof. by destruct e. Qed.
Lemma attempts_hit s d l : attempts (Call_move_directory s d :: l) = (s, d) :: attempts l.
Proof. done. Qed.
Lemma attempts_skip e l :
  (if e is Call_move_directory _ _ then false else true) = true →
  attempts (e :: l) = attempts l.
Proof. by destruct e. Qed.
Lemma cleanups_hit r dbg l :
  cleanups (DeleteEmptyDirectories r dbg :: l) = (r, dbg) :: cleanups l.
Proof. done. Qed.
Lemma cleanups_skip e l :
  (if e is DeleteEmptyDirectories _ _ then false else true) = true →
  cleanups (e :: l) = cleanups l.
Proof. by destruct e. Qed.
Lemma failures_hit e l : is_failure e = true → failures (e :: l) = S (failures l).
Proof. intros He. by rewrite failures_cons, He. Qed.
Lemma failures_skip e l : is_failure e = false → failures (e :: l) = failures l.
Proof. intros He. by rewrite failures_cons, He. Qed.
Lemma fs_calls_hit e l : is_fs_call e = true → fs_calls (e :: l) = e :: fs_calls l.
Proof. intros He. by rewrite fs_calls_cons, He. Qed.
Lemma fs_calls_skip e l : is_fs_call e = false → fs_calls (e :: l) = fs_calls l.
Proof. intros He. by rewrite fs_calls_cons, He. Qed.
Lemma actions_hit e l : is_action e = true → actions (e :: l) = e :: actions l.
Proof. intros He. by rewrite actions_cons, He. Qed.
Lemma actions_skip e l : is_action e = false → actions (e :: l) = actions l.
Proof. intros He. by rewrite actions_cons, He. Qed.
Lemma examined_nil : examined [] = [].
Proof. done. Qed.
Lemma cleanups_nil : cleanups [] = [].
Proof. done. Qed.
Lemma fs_calls_nil : fs_calls [] = [].
Proof. done. Qed.
Lemma actions_nil : actions [] = [].
Proof. done. Qed.

(** Standard output and verdicts aside, the observations read the actions. *)
Lemma attempts_actions l : attempts (actions l) = attempts l.
Proof.
  induction l as [|e l IH]; [done|]. rewrite actions_cons.
  destruct e; simpl; rewrite ?attempts_cons, ?IH; done.
Qed.
Lemma cleanups_actions l : cleanups (actions l) = cleanups l.
Proof.
  induction l as [|e l IH]; [done|]. rewrite actions_cons.
  destruct e; simpl; rewrite ?cleanups_cons, ?IH; done.
Qed.
Lemma fs_calls_actions l : fs_calls (actions l) = fs_calls l.
Proof.
  induction l as [|e l IH]; [done|]. rewrite actions_cons.
  destruct e; simpl; rewrite ?fs_calls_cons; simpl; rewrite ?IH; done.
Qed.
Lemma failures_actions l : failures (actions l) = failures l.
Proof.
  induction l as [|e l IH]; [done|]. rewrite actions_cons.
  destruct e; simpl; rewrite ?failures_cons; simpl; rewrite ?IH; done.
Qed.

End TraceFacts.

Create Rewrite HintDb trace.
#[export] Hint Rewrite examined_app attempts_app cleanups_app failures_app
  fs_calls_app actions_app examined_hit attempts_hit cleanups_hit
  failures_nil attempts_nil examined_nil cleanups_nil fs_calls_nil actions_nil : trace.
#[export] Hint Rewrite examined_skip attempts_skip cleanups_skip failures_hit
  failures_skip fs_calls_hit fs_calls_skip actions_hit actions_skip
  using reflexivity : trace.

(** Normalise what the observations say of a trace built from known events. *)
Ltac trace_simpl := autorewrite with trace; simpl.

Section Orchestrator.
Context `{Platform}.
Local Open Scope py_scope.

(** A loop whose body never raises runs to its end. *)
Lemma for_each_runs {A S} (body : A → S → M S) (l : list A) :
  (∀ x acc fs, ∃ acc' fs' evs, body x acc fs = (Ok acc', fs', evs)) →
  ∀ acc fs, ∃ acc' fs' evs,
    for_each l body acc fs = (Ok acc', fs', evs) ∧ loop_run body l acc fs acc' fs' evs.
Proof.
  intros Hbody. induction l as [|x l IH]; intros acc fs; simpl.
  - eexists _, _, _; split; [reflexivity | constructor].
  - destruct (Hbody x acc fs) as (acc1 & fs1 & evs1 & H1).
    destruct (IH acc1 fs1) as (acc2 & fs2 & evs2 & H2 & Hrun).
    exists acc2, fs2, (evs1 ++ evs2). split.
    + unfold bind. by rewrite H1, H2.
    + by econstructor.
Qed.

(** [move_directory] always returns; it returns [False] exactly when a call
    inside the [try] raised; a dry run touches nothing. *)
Lemma move_directory_run source dest debug dry_run fs :
  ∃ b fs' evs,
    move_directory source dest debug dry_run fs = (Ok b, fs', evs)
    ∧ attempts evs = [(source, dest)] ∧ examined evs = [] ∧ cleanups evs = []
    ∧ failures evs = (if b then 0 else 1)
    ∧ (dry_run = true → b = true ∧ fs' = fs ∧ fs_calls evs = []).
Proof.
  unfold move_directory, try_except_Exception, mkdir_parents, shutil_move_call,
    bind, when, print, emit, ret.
  destruct debug, dry_run; simpl;
    try (eexists _, _, _; split; [reflexivity|]; repeat split; done);
    destruct (path_mkdir fs _) as [fs1 [e1|]]; simpl;
    try destruct (shutil_move fs1 _ _) as [fs2 [e2|]]; simpl;
    eexists _, _, _; (split; [reflexivity|]); repeat split; done.
Qed.

(** [relative_to] raises nothing but [ValueError]. *)
Lemma relative_to_raises self other e :
  relative_to self other = Raise e → exn_cls e = ValueError.
Proof.
  unfold relative_to. repeat case_match; intros; by simplify_eq.
Qed.

(** [get_target_from_path] in terms of [relative_to]. *)
Lemma get_target_from_path_cases light_dir source_dir :
  get_target_from_path light_dir source_dir =
    match relative_to (Path light_dir) (Path (replace_env_vars source_dir)) with
    | Ok relative => Ok (str relative)
    | Raise _ => Ok (name (Path light_dir))
    end.
Proof.
  unfold get_target_from_path, try_except.
  destruct (relative_to _ _) as [r|e] eqn:E; [done|].
  apply relative_to_raises in E. by rewrite decide_True.
Qed.

Lemma get_target_from_path_returns light_dir source_dir :
  ∃ v, get_target_from_path light_dir source_dir = Ok v.
Proof. rewrite get_target_from_path_cases. case_match; eauto. Qed.

(** What one turn of the loop does, by the verdict it reads. *)
Lemma process_image_dir_run check source_dir dest_path debug dry_run image_dir results fs :
  let st := check fs image_dir debug in
  ∃ rel results' fs' evs,
    get_target_from_path image_dir source_dir = Ok rel
    ∧ process_image_dir check source_dir dest_path debug dry_run image_dir results fs
      = (Ok results', fs', evs)
    ∧ examined evs = [(image_dir, st)]
    ∧ cleanups evs = []
    ∧ ((has_lights st = false ∧ results' = incr_skipped_no_lights results
        ∧ fs' = fs ∧ actions evs = [])
       ∨ (has_lights st = true ∧ is_complete st = false
          ∧ results' = track_skip_reason (reason st) results
          ∧ fs' = fs ∧ actions evs = [])
       ∨ (has_lights st = true ∧ is_complete st = true
          ∧ ∃ b mevs,
              move_directory image_dir (str (truediv dest_path rel)) debug dry_run fs
              = (Ok b, fs', mevs)
              ∧ actions evs = actions mevs ∧ attempts evs = attempts mevs
              ∧ failures evs = failures mevs ∧ fs_calls evs = fs_calls mevs
              ∧ results' = if b then incr_moved results else incr_errors results)).
Proof.
  intros st.
  destruct (get_target_from_path_returns image_dir source_dir) as [rel Hrel].
  exists rel.
  unfold process_image_dir. rewrite Hrel.
  unfold bind at 1, lift. unfold bind at 1, print. unfold bind at 1, call_check.
  fold st. simpl.
  destruct (has_lights st) eqn:Hl; simpl.
  2:{ unfold bind, print, ret. eexists _, _, _. split; [done|]. split; [reflexivity|].
      split; [done|]. split; [done|]. left. done. }
  destruct (is_complete st) eqn:Hc; simpl.
  2:{ destruct debug, (needs_bias st); unfold bind, when, print, ret; simpl;
        eexists _, _, _; (split; [done|]); (split; [reflexivity|]);
        (split; [done|]); (split; [done|]); right; left; done. }
  destruct (move_directory_run image_dir (str (truediv dest_path rel)) debug dry_run fs)
    as (b & fs' & mevs & Hm & Hatt & Hex & Hcl & Hfail & _).
  exists (if b then incr_moved results else incr_errors results), fs'.
  destruct debug, (needs_bias st), b; unfold bind, when, print, ret; rewrite Hm; simpl;
    eexists; (split; [done|]); (split; [reflexivity|]);
    trace_simpl; rewrite ?Hex, ?Hcl, ?app_nil_r, ?Nat.add_0_r;
    (split; [done|]); (split; [done|]); right; right;
    (split; [done|]); (split; [done|]); eexists _, mevs; (split; [reflexivity|]);
    repeat split; done.
Qed.

(** The scan only reads: it returns the sorted set and leaves the file
    system as it was. *)
Lemma find_light_directories_run source_dir debug fs :
  ∃ evs,
    find_light_directories source_dir debug fs
    = (Ok (sorted (foldl scan_step ∅
             (match scandir_tree fs (str (Path (replace_env_vars source_dir))) with
              | Some t => walk (str (Path (replace_env_vars source_dir))) t
              | None => []
              end))), fs, evs)
    ∧ examined evs = [] ∧ actions evs = [].
Proof.
  unfold find_light_directories, os_walk, bind, when, print, ret.
  destruct debug; simpl; eexists; (split; [reflexivity|]); done.
Qed.

(** The whole run: the scan, the loop over what it found, and the cleanup
    under its guard. *)
Lemma process_light_directories_run check source_dir dest_dir debug dry_run fs :
  let source_path := Path (replace_env_vars source_dir) in
  let dest_path := Path (replace_env_vars dest_dir) in
  ∃ image_dirs evs0 results fs1 levs evs,
    find_light_directories source_dir debug fs = (Ok image_dirs, fs, evs0)
    ∧ loop_run (process_image_dir check source_dir dest_path debug dry_run)
        image_dirs results0 fs results fs1 levs
    ∧ let cleanup := negb dry_run && (0 <? moved results)%nat in
      process_light_directories check source_dir dest_dir debug dry_run fs
      = (Ok results,
         (if cleanup then ap_delete_empty_directories fs1 (str source_path) debug else fs1),
         evs)
      ∧ examined evs = examined levs
      ∧ actions evs
        = actions levs
          ++ (if cleanup then [DeleteEmptyDirectories (str source_path) debug] else []).
Proof.
  intros source_path dest_path.
  destruct (find_light_directories_run source_dir debug fs) as (evs0 & Hfind & Hex0 & Hact0).
  set (image_dirs := sorted _) in Hfind.
  exists image_dirs, evs0.
  unfold process_light_directories. unfold bind at 1. rewrite Hfind.
  destruct image_dirs as [|d l] eqn:Hdirs.
  - exists results0, fs, []. eexists. split; [done|]. split; [constructor|].
    rewrite andb_false_r. unfold bind, print, ret. simpl.
    split; [reflexivity|]. trace_simpl. by rewrite Hex0, Hact0.
  - destruct (for_each_runs (process_image_dir check source_dir dest_path debug dry_run)
                (d :: l)) with (acc := results0) (fs := fs)
      as (results & fs1 & levs & Hloop & Hrun).
    { intros x acc fs0.
      destruct (process_image_dir_run check source_dir dest_path debug dry_run x acc fs0)
        as (? & ? & ? & ? & _ & ? & _). eauto. }
    exists results, fs1, levs.
    destruct (negb dry_run && (0 <? moved results)%nat) eqn:Hc;
      eexists; (split; [done|]); (split; [done|]);
      unfold bind at 1, print; unfold bind at 1; fold dest_path; rewrite Hloop;
      fold source_path; simpl; rewrite Hc;
      unfold bind, when, print, delete_empty_directories, ret; simpl;
      (split; [reflexivity|]); trace_simpl; rewrite Hex0, Hact0, ?app_nil_r; done.
Qed.

(** What holds of the loop after any number of turns. *)
Lemma loop_facts check source_dir dest_path debug dry_run l r fs r' fs' evs :
  loop_run (process_image_dir check source_dir dest_path debug dry_run) l r fs r' fs' evs →
  (examined evs).*1 = l
  ∧ cleanups evs = []
  ∧ errors r' = errors r + failures evs
  ∧ moved r' + errors r' = moved r + errors r + length (attempts evs)
  ∧ attempts evs
    = (λ p, (p.1, destination source_dir dest_path p.1))
        <$> List.filter (λ p, ready p.2) (examined evs)
  ∧ (dry_run = true → fs' = fs ∧ fs_calls evs = []).
Proof.
  induction 1 as [acc fs|x l acc fs acc1 fs1 evs1 acc2 fs2 evs2 Hbody Hrun IH].
  { repeat split; simpl; try done; lia. }
  destruct IH as (IHex & IHcl & IHerr & IHmov & IHatt & IHdry).
  destruct (process_image_dir_run check source_dir dest_path debug dry_run x acc fs)
    as (rel & acc1' & fs1' & evs1' & Hrel & Hbody' & Hex & Hcl & Hcases).
  rewrite Hbody in Hbody'. simplify_eq.
  assert (destination source_dir dest_path x = str (truediv dest_path rel)) as Hdest.
  { unfold destination, target_of. by rewrite Hrel. }
  trace_simpl. rewrite Hex, Hcl, List.filter_app, fmap_app, length_app. simpl.
  unfold ready at 1.
  destruct Hcases as [(Hl & Hr & Hf & Hact)|[(Hl & Hc & Hr & Hf & Hact)
    |(Hl & Hc & b & mevs & Hm & Hact & Hatt & Hfail & Hfs & Hr)]].
  - rewrite Hl. simpl.
    rewrite <- (attempts_actions evs1'), <- (failures_actions evs1'),
      <- (fs_calls_actions evs1'), Hact. simpl.
    rewrite Hr in IHerr, IHmov. simpl in IHerr, IHmov.
    split_and!; try done; try lia; try congruence.
    intros Hd. destruct (IHdry Hd). by subst.
  - rewrite Hl, Hc. simpl.
    rewrite <- (attempts_actions evs1'), <- (failures_actions evs1'),
      <- (fs_calls_actions evs1'), Hact. simpl.
    assert (errors acc1' = errors acc ∧ moved acc1' = moved acc) as [He Hmv].
    { rewrite Hr. unfold track_skip_reason. by repeat case_match. }
    rewrite He in IHerr, IHmov. rewrite Hmv in IHmov.
    split_and!; try done; try lia; try congruence.
    intros Hd. destruct (IHdry Hd). by subst.
  - rewrite Hl, Hc. simpl.
    destruct (move_directory_run x (str (truediv dest_path rel)) debug dry_run fs)
      as (b' & fs'' & mevs' & Hm' & Hatt' & _ & _ & Hfail' & Hdry').
    rewrite Hm in Hm'. simplify_eq.
    rewrite Hatt, Hfail, Hfs, Hatt', Hfail', Hdest. simpl.
    split_and!; try done.
    + destruct b'; simpl in *; lia.
    + destruct b'; simpl in *; lia.
    + by f_equal.
    + intros Hd. destruct (IHdry Hd) as [-> ->]. destruct (Hdry' Hd) as (_ & -> & ->). done.
Qed.

(** One turn of the loop under two evaluators whose verdicts agree. *)
Lemma process_image_dir_agree check1 check2 source_dir dest_path debug dry_run x acc fs
    r1 fs1 e1 r2 fs2 e2 :
  agree (check1 fs x debug) (check2 fs x debug) →
  process_image_dir check1 source_dir dest_path debug dry_run x acc fs = (Ok r1, fs1, e1) →
  process_image_dir check2 source_dir dest_path debug dry_run x acc fs = (Ok r2, fs2, e2) →
  r1 = r2 ∧ fs1 = fs2 ∧ actions e1 = actions e2.
Proof.
  intros (Hl & Hc & Hr) H1 H2.
  destruct (process_image_dir_run check1 source_dir dest_path debug dry_run x acc fs)
    as (rel & r1' & fs1' & e1' & Hrel & H1' & _ & _ & Hcases1).
  destruct (process_image_dir_run check2 source_dir dest_path debug dry_run x acc fs)
    as (rel' & r2' & fs2' & e2' & Hrel' & H2' & _ & _ & Hcases2).
  rewrite H1 in H1'. rewrite H2 in H2'. rewrite Hrel in Hrel'. simplify_eq.
  rewrite <- Hl, <- Hc, <- Hr in Hcases2.
  destruct Hcases1 as [(Hl1 & -> & -> & ->)|[(Hl1 & Hc1 & -> & -> & ->)
    |(Hl1 & Hc1 & b & mevs & Hm & -> & _ & _ & _ & ->)]];
  destruct Hcases2 as [(Hl2 & -> & -> & ->)|[(Hl2 & Hc2 & -> & -> & ->)
    |(Hl2 & Hc2 & b' & mevs' & Hm' & -> & _ & _ & _ & ->)]];
  try congruence; try done.
  rewrite Hm in Hm'. by simplify_eq.
Qed.

Lemma loop_agree check1 check2 source_dir dest_path debug dry_run l :
  (∀ fs d, agree (check1 fs d debug) (check2 fs d debug)) →
  ∀ r fs r1 fs1 e1 r2 fs2 e2,
    loop_run (process_image_dir check1 source_dir dest_path debug dry_run) l r fs r1 fs1 e1 →
    loop_run (process_image_dir check2 source_dir dest_path debug dry_run) l r fs r2 fs2 e2 →
    r1 = r2 ∧ fs1 = fs2 ∧ actions e1 = actions e2.
Proof.
  intros Hagree. induction l as [|x l IH]; intros r fs r1 fs1 e1 r2 fs2 e2 Hrun1 Hrun2;
    inversion Hrun1; inversion Hrun2; simplify_eq; [done|].
  match goal with
  | Ha : process_image_dir check1 _ _ _ _ _ _ _ = _,
    Hb : process_image_dir check2 _ _ _ _ _ _ _ = _ |- _ =>
      destruct (process_image_dir_agree _ _ _ _ _ _ _ _ _ _ _ _ _ _ _ (Hagree fs x) Ha Hb)
        as (-> & -> & Hact)
  end.
  match goal with
  | Ha : loop_run (process_image_dir check1 _ _ _ _) _ _ _ _ _ _,
    Hb : loop_run (process_image_dir check2 _ _ _ _) _ _ _ _ _ _ |- _ =>
      destruct (IH _ _ _ _ _ _ _ _ Ha Hb) as (-> & -> & Hact')
  end.
  by rewrite !actions_app, Hact, Hact'.
Qed.

End Orchestrator.

(** ** The scan *)

Section ScanFacts.
Context `{Platform}.

Lemma has_images_spec (files : list string) :
  has_images files = true ↔ ∃ f, f ∈ files ∧ image_name f.
Proof.
  unfold has_images, SCAN_EXTENSIONS, image_name.
  rewrite existsb_exists. split.
  - intros (ext & Hext & Hany). apply existsb_exists in Hany as (f & Hf & He).
    apply list_elem_of_In in Hf. apply endswith_spec in He as [stem He].
    exists f. split; [done|]. exists stem.
    simpl in Hext. destruct Hext as [<-|[<-|[<-|[]]]]; auto.
  - intros (f & Hf%list_elem_of_In & stem & [He|[He|He]]);
      [exists "fits"|exists "fit"|exists "xisf"];
      (split; [simpl; auto|]); apply existsb_exists; exists f; (split; [done|]);
      apply endswith_spec; by exists stem.
Qed.

Lemma scan_spec entries (light_dirs : gset string) (d : string) :
  d ∈ foldl scan_step light_dirs entries
  ↔ d ∈ light_dirs
    ∨ ∃ dirs files, (d, dirs, files) ∈ entries ∧ has_images files = true.
Proof.
  revert light_dirs. induction entries as [|[[r ds] fl] l IH]; intros light_dirs; simpl.
  { split; [by left|]. intros [?|(? & ? & ?%elem_of_nil & _)]; done. }
  rewrite IH. unfold scan_step. split.
  - intros [Hd|(dirs & files & Hin & Himg)].
    + destruct (has_images fl) eqn:Hfl; [|by left].
      apply elem_of_union in Hd as [->%elem_of_singleton|Hd]; [|by left].
      right. exists ds, fl. split; [by left|done].
    + right. exists dirs, files. split; [by right|done].
  - intros [Hd|(dirs & files & [[= -> -> ->]|Hin]%elem_of_cons & Himg)].
    + left. destruct (has_images fl); [|done]. apply elem_of_union. by right.
    + left. rewrite Himg. apply elem_of_union. left. by apply elem_of_singleton.
    + right. eauto.
Qed.

(** [sorted] lists its set in ascending order, each element once. *)
Lemma sorted_spec (light_dirs : gset string) :
  StronglySorted String.le (sorted light_dirs)
  ∧ NoDup (sorted light_dirs)
  ∧ ∀ d, d ∈ sorted light_dirs ↔ d ∈ light_dirs.
Proof.
  unfold sorted. split_and!.
  - apply StronglySorted_merge_sort; apply _.
  - rewrite merge_sort_Permutation. apply NoDup_elements.
  - intros d. rewrite merge_sort_Permutation. apply elem_of_elements.
Qed.

(** The directories the scan returns, in terms of the tree it walked. *)
Lemma found_spec source_dir fs (d : string) :
  let top := str (Path (replace_env_vars source_dir)) in
  d ∈ sorted (foldl scan_step ∅
                (match scandir_tree fs top with Some t => walk top t | None => [] end))
  ↔ ∃ t t', scandir_tree fs top = Some t ∧ dir_in top t d t'
            ∧ ∃ f, f ∈ files_of t' ∧ image_name f.
Proof.
  intros top. destruct (sorted_spec (foldl scan_step ∅
    (match scandir_tree fs top with Some t => walk top t | None => [] end)))
    as (_ & _ & ->).
  rewrite scan_spec. destruct (scandir_tree fs top) as [t|].
  - split.
    + intros [?%elem_of_empty|(dirs & files & Hin & Himg)]; [done|].
      apply walk_spec in Hin as (t' & Hdir & -> & ->).
      apply has_images_spec in Himg. eauto.
    + intros (t0 & t' & [= <-] & Hdir & Himg). right.
      exists (subdirs_of t').*1, (files_of t'). split.
      * apply walk_spec. eauto.
      * by apply has_images_spec.
  - split.
    + intros [?%elem_of_empty|(? & ? & ?%elem_of_nil & _)]; done.
    + intros (? & ? & ? & _). done.
Qed.

(** Found directories lie at or below the source path. *)
Lemma found_below source_dir fs (d : string) :
  let source_path := Path (replace_env_vars source_dir) in
  match scandir_tree fs (str source_path) with
  | Some t => names_ok t = true
  | None => True
  end →
  d ∈ sorted (foldl scan_step ∅
                (match scandir_tree fs (str source_path) with
                 | Some t => walk (str source_path) t | None => [] end)) →
  root (Path d) = root source_path ∧ ∃ rel, tail (Path d) = tail source_path ++ rel.
Proof.
  intros source_path Hok Hd.
  apply found_spec in Hd as (t & t' & Ht & Hdir & _). fold source_path in Ht, Hdir.
  rewrite Ht in Hok. apply dir_in_below in Hdir; [|done].
  subst source_path. by rewrite Path_str_Path in Hdir.
Qed.

(** Where a directory at or below the source path is sent. *)
Lemma destination_below source_dir dest_path (d : string) (rel : list string) :
  let source_path := Path (replace_env_vars source_dir) in
  root (Path d) = root source_path → tail (Path d) = tail source_path ++ rel →
  target_of source_dir d = str {| root := ""; tail := rel |}
  ∧ destination source_dir dest_path d
    = str {| root := root dest_path; tail := tail dest_path ++ rel |}.
Proof.
  intros source_path Hr Ht. subst source_path.
  assert (target_of source_dir d = str {| root := ""; tail := rel |}) as Htarget.
  { unfold target_of. rewrite get_target_from_path_cases.
    by rewrite (relative_to_below _ _ rel Hr Ht). }
  split; [done|]. unfold destination. rewrite Htarget, truediv_str_rel; [done|].
  pose proof (Path_tail_ok d) as Hall. rewrite Ht in Hall.
  by apply Forall_app in Hall as [_ ?].
Qed.

End ScanFacts.

(** ** The evaluator of the specification *)

Section Evaluator.
Import Matching.
Variable tolerance : Q.

Lemma filter_bool_decide {A} (P : A → Prop) `{∀ x, Decision (P x)} (l : list A) :
  List.filter (λ x, bool_decide (P x)) l = filter P l.
Proof.
  induction l as [|x l IH]; [done|]. simpl. rewrite filter_cons, IH.
  by destruct (decide (P x)); [rewrite bool_decide_true|rewrite bool_decide_false].
Qed.

(** Frames none of which is a light leave the light group empty. *)
Lemma no_light_group (frames : list Frame) :
  Forall (λ f, type f ≠ Some LIGHT) frames → get_frames_by_type frames LIGHT = [].
Proof.
  unfold get_frames_by_type. induction 1 as [|f l Hf _ IH]; [done|].
  simpl. by rewrite bool_decide_false.
Qed.

End Evaluator.

Section SkipReasons.
Context `{Platform}.


End SkipReasons.

(** * The claims *)

Section Claims.
Context `{Platform}.

(** C3: a failure while moving one directory is caught inside
    [move_directory], which then returns [False]; the run counts it under
    [errors] and goes on with the remaining directories.  In full:
    [move_directory] always returns a boolean, [False] exactly when a call
    inside its [try] raised; a turn of the loop whose move returned
    [False] adds one to [errors] and returns; and a whole run always
    returns its counters, has examined every directory the scan found, and
    has counted in [errors] exactly the calls that raised. *)
Theorem move_failure_is_counted_not_fatal check source_dir dest_dir debug dry_run fs :
  let dest_path := Path (replace_env_vars dest_dir) in
  (∀ source dest fs0, ∃ b fs1 evs,
      move_directory source dest debug dry_run fs0 = (Ok b, fs1, evs)
      ∧ failures evs = (if b then 0 else 1))
  ∧ (∀ image_dir results fs0,
       ready (check fs0 image_dir debug) = true →
       (∃ fs1 evs, move_directory image_dir (destination source_dir dest_path image_dir)
                     debug dry_run fs0 = (Ok false, fs1, evs)) →
       ∃ fs1 evs, process_image_dir check source_dir dest_path debug dry_run
                    image_dir results fs0 = (Ok (incr_errors results), fs1, evs))
  ∧ ∃ image_dirs evs0 results fs' evs,
      find_light_directories source_dir debug fs = (Ok image_dirs, fs, evs0)
      ∧ process_light_directories check source_dir dest_dir debug dry_run fs
        = (Ok results, fs', evs)
      ∧ (examined evs).*1 = image_dirs
      ∧ errors results = failures evs.
Proof.
  intros dest_path. split_and!.
  - intros source dest fs0.
    destruct (move_directory_run source dest debug dry_run fs0)
      as (b & fs1 & evs & Hm & _ & _ & _ & Hfail & _). eauto.
  - intros image_dir results fs0 Hready (fs1 & evs & Hm).
    destruct (process_image_dir_run check source_dir dest_path debug dry_run
                image_dir results fs0)
      as (rel & r' & fs1' & evs' & Hrel & Hbody & _ & _ & Hcases).
    unfold ready in Hready. apply andb_prop in Hready as [Hl Hc].
    unfold destination, target_of in Hm. rewrite Hrel in Hm.
    destruct Hcases as [(Hl' & _)|[(_ & Hc' & _)|(_ & _ & b & mevs & Hm' & _ & _ & _ & _ & ->)]];
      [congruence..|].
    rewrite Hm in Hm'. simplify_eq. eauto.
  - destruct (process_light_directories_run check source_dir dest_dir debug dry_run fs)
      as (image_dirs & evs0 & results & fs1 & levs & evs & Hfind & Hrun & Hproc & Hex & Hact).
    apply loop_facts in Hrun as (Hexl & _ & Herr & _).
    exists image_dirs, evs0, results. eexists _, evs.
    split_and!; [done|apply Hproc|by rewrite Hex|].
    rewrite <- (failures_actions evs), Hact, failures_app, failures_actions, Herr.
    simpl. by destruct (negb dry_run && _).
Qed.

(** C7: two evaluators whose verdicts agree on [has_lights], [is_complete]
    and [reason], and differ at will in the four counts and in
    [needs_bias], lead [process_light_directories] to the same counters,
    the same file system and the same actions (moves attempted, calls
    made, cleanup); only standard output can tell them apart. *)
Theorem counts_and_flag_are_diagnostic_only check1 check2 source_dir dest_dir debug dry_run fs :
  (∀ fs0 d, agree (check1 fs0 d debug) (check2 fs0 d debug)) →
  ∃ results fs' evs1 evs2,
    process_light_directories check1 source_dir dest_dir debug dry_run fs
    = (Ok results, fs', evs1)
    ∧ process_light_directories check2 source_dir dest_dir debug dry_run fs
      = (Ok results, fs', evs2)
    ∧ actions evs1 = actions evs2
    ∧ attempts evs1 = attempts evs2.
Proof.
  intros Hagree.
  destruct (process_light_directories_run check1 source_dir dest_dir debug dry_run fs)
    as (dirs1 & evs0 & r1 & fs1 & levs1 & evs1 & Hfind1 & Hrun1 & Hproc1 & _ & Hact1).
  destruct (process_light_directories_run check2 source_dir dest_dir debug dry_run fs)
    as (dirs2 & evs0' & r2 & fs2 & levs2 & evs2 & Hfind2 & Hrun2 & Hproc2 & _ & Hact2).
  rewrite Hfind1 in Hfind2. simplify_eq.
  destruct (loop_agree _ _ _ _ _ _ _ Hagree _ _ _ _ _ _ _ _ Hrun1 Hrun2) as (-> & -> & Hact).
  eexists _, _, evs1, evs2. split_and!; [apply Hproc1|apply Hproc2| |].
  - by rewrite Hact1, Hact2, Hact.
  - by rewrite <- (attempts_actions evs1), <- (attempts_actions evs2), Hact1, Hact2, Hact.
Qed.

(** C8: with [dry_run=True], [move_directory] returns [True] and makes no
    call that could change the file system (no [mkdir], no [shutil.move]),
    and a dry run of [process_light_directories] leaves the file system as
    it was, the cleanup of empty directories included. *)
Theorem dry_run_changes_nothing :
  (∀ source dest debug fs, ∃ evs,
      move_directory source dest debug true fs = (Ok true, fs, evs)
      ∧ fs_calls evs = [])
  ∧ (∀ check source_dir dest_dir debug fs, ∃ results evs,
       process_light_directories check source_dir dest_dir debug true fs
       = (Ok results, fs, evs)
       ∧ fs_calls evs = [] ∧ cleanups evs = []).
Proof.
  split.
  - intros source dest debug fs.
    destruct (move_directory_run source dest debug true fs)
      as (b & fs1 & evs & Hm & _ & _ & _ & _ & Hdry).
    destruct (Hdry eq_refl) as (-> & -> & Hfs). eauto.
  - intros check source_dir dest_dir debug fs.
    destruct (process_light_directories_run check source_dir dest_dir debug true fs)
      as (image_dirs & evs0 & results & fs1 & levs & evs & Hfind & Hrun & Hproc & _ & Hact).
    apply loop_facts in Hrun as (_ & Hcl & _ & _ & _ & Hdry).
    destruct (Hdry eq_refl) as (-> & Hfs).
    simpl in Hproc, Hact. rewrite app_nil_r in Hact.
    exists results, evs. split_and!; [apply Hproc| |].
    + by rewrite <- fs_calls_actions, Hact, fs_calls_actions.
    + by rewrite <- cleanups_actions, Hact, cleanups_actions.
Qed.

(** C9: [process_light_directories] calls
    [ap_common.delete_empty_directories] (once, on the source path) if and
    only if [dry_run] is false and the [moved] counter is positive, where
    [moved] counts the invocations of [move_directory] that did not fail;
    with no successful move there is no cleanup call at all. *)
Theorem cleanup_iff_real_run_moved check source_dir dest_dir debug dry_run fs :
  ∃ results fs' evs,
    process_light_directories check source_dir dest_dir debug dry_run fs
    = (Ok results, fs', evs)
    ∧ cleanups evs
      = (if negb dry_run && (0 <? moved results)%nat
         then [(str (Path (replace_env_vars source_dir)), debug)] else [])
    ∧ moved results + failures evs = length (attempts evs).
Proof.
  destruct (process_light_directories_run check source_dir dest_dir debug dry_run fs)
    as (image_dirs & evs0 & results & fs1 & levs & evs & Hfind & Hrun & Hproc & _ & Hact).
  apply loop_facts in Hrun as (_ & Hcl & Herr & Hmov & _).
  eexists results, _, evs. split_and!; [apply Hproc| |].
  - rewrite <- cleanups_actions, Hact, cleanups_app, cleanups_actions, Hcl.
    by destruct (negb dry_run && _).
  - rewrite <- (failures_actions evs), <- (attempts_actions evs), Hact,
      failures_app, attempts_app, failures_actions, attempts_actions, length_app.
    simpl in Herr, Hmov.
    destruct (negb dry_run && _); trace_simpl; rewrite Herr in Hmov; lia.
Qed.

(** C2: a move of an examined directory is attempted if and only if the
    verdict returned for it has both [has_lights] and [is_complete]; the
    destination is [dest_dir] joined with the directory's path relative to
    [source_dir]; a directory failing either condition is skipped with the
    file system unchanged.  The directories are those the scan found, whose
    names in the walked tree start with no separator. *)
Theorem move_attempted_iff_ready check source_dir dest_dir debug dry_run fs :
  let source_path := Path (replace_env_vars source_dir) in
  let dest_path := Path (replace_env_vars dest_dir) in
  match scandir_tree fs (str source_path) with
  | Some t => names_ok t = true
  | None => True
  end →
  ∃ image_dirs evs0 results fs' evs,
    find_light_directories source_dir debug fs = (Ok image_dirs, fs, evs0)
    ∧ process_light_directories check source_dir dest_dir debug dry_run fs
      = (Ok results, fs', evs)
    ∧ (examined evs).*1 = image_dirs
    ∧ (attempts evs).*1 = (List.filter (λ p, ready p.2) (examined evs)).*1
    ∧ Forall (λ a, ∃ rel,
                root (Path a.1) = root source_path
                ∧ tail (Path a.1) = tail source_path ++ rel
                ∧ a.2 = str {| root := root dest_path; tail := tail dest_path ++ rel |})
             (attempts evs)
    ∧ ∀ image_dir results0 fs0,
        ready (check fs0 image_dir debug) = false →
        ∃ results1 evs1,
          process_image_dir check source_dir dest_path debug dry_run image_dir results0 fs0
          = (Ok results1, fs0, evs1)
          ∧ attempts evs1 = [] ∧ fs_calls evs1 = [].
Proof.
  intros source_path dest_path Hok.
  destruct (process_light_directories_run check source_dir dest_dir debug dry_run fs)
    as (image_dirs & evs0 & results & fs1 & levs & evs & Hfind & Hrun & Hproc & Hex & Hact).
  pose proof (loop_facts _ _ _ _ _ _ _ _ _ _ _ Hrun) as (Hexl & _ & _ & _ & Hatt & _).
  assert (attempts evs = attempts levs) as Hatt'.
  { rewrite <- (attempts_actions evs), Hact, attempts_app, attempts_actions.
    destruct (negb dry_run && _); simpl; by rewrite app_nil_r. }
  exists image_dirs, evs0, results. eexists _, evs.
  split_and!; [done|apply Hproc|by rewrite Hex| | |].
  - rewrite Hatt', Hex, Hatt, <- list_fmap_compose. done.
  - rewrite Hatt', Hatt. apply Forall_fmap, Forall_forall. intros [d st] Hin. simpl.
    apply list_elem_of_In, filter_In in Hin as [Hin%list_elem_of_In _].
    assert (d ∈ image_dirs) as Hd.
    { rewrite <- Hexl. apply list_elem_of_fmap. by exists (d, st). }
    destruct (find_light_directories_run source_dir debug fs) as (evs0' & Hfind' & _).
    rewrite Hfind in Hfind'. injection Hfind' as -> _.
    destruct (found_below source_dir fs d Hok Hd) as (Hr & rel & Ht).
    exists rel. split_and!; [done|done|].
    by destruct (destination_below source_dir dest_path d rel Hr Ht).
  - intros image_dir r0 fs0 Hnot.
    destruct (process_image_dir_run check source_dir dest_path debug dry_run
                image_dir r0 fs0)
      as (rel & r' & fs1' & evs' & _ & Hbody & _ & _ & Hcases).
    unfold ready in Hnot.
    destruct Hcases as [(_ & _ & -> & Ha)|[(_ & _ & _ & -> & Ha)|(Hl & Hc & _)]].
    + exists r', evs'. split; [done|].
      by rewrite <- attempts_actions, <- fs_calls_actions, Ha.
    + exists r', evs'. split; [done|].
      by rewrite <- attempts_actions, <- fs_calls_actions, Ha.
    + by rewrite Hl, Hc in Hnot.
Qed.

(** C5: [find_light_directories] returns, in ascending order and without
    repetition, exactly the directories of the walked tree that directly
    hold a file whose name, lowered, ends with [.fits], [.fit] or [.xisf];
    a directory whose files all have other extensions is not returned. *)
Theorem find_light_directories_exact source_dir debug fs :
  let top := str (Path (replace_env_vars source_dir)) in
  ∃ image_dirs evs,
    find_light_directories source_dir debug fs = (Ok image_dirs, fs, evs)
    ∧ StronglySorted String.le image_dirs
    ∧ NoDup image_dirs
    ∧ ∀ d, d ∈ image_dirs
           ↔ ∃ t t', scandir_tree fs top = Some t ∧ dir_in top t d t'
                     ∧ ∃ f stem, f ∈ files_of t'
                                 ∧ (Str.lower f = stem +:+ ".fits"
                                    ∨ Str.lower f = stem +:+ ".fit"
                                    ∨ Str.lower f = stem +:+ ".xisf").
Proof.
  intros top.
  destruct (find_light_directories_run source_dir debug fs) as (evs & Hfind & _).
  eexists _, evs. split; [apply Hfind|].
  destruct (sorted_spec (foldl scan_step ∅
    (match scandir_tree fs top with Some t => walk top t | None => [] end)))
    as (Hsorted & Hnodup & _).
  split_and!; [done|done|]. intros d.
  rewrite (found_spec source_dir fs d). unfold image_name. split.
  - intros (t & t' & Ht & Hdir & f & Hf & stem & Hext). eauto 10.
  - intros (t & t' & Ht & Hdir & f & stem & Hf & Hext). eauto 10.
Qed.

(** C10: [get_target_from_path] always returns a string and never raises.
    When the parsed [light_dir] has the root of the parsed, expanded
    [source_dir] and its components continue those of [source_dir], the
    result is the text of the remaining components; otherwise it is the
    last component of [light_dir] (empty when there is none). *)
Theorem get_target_from_path_total light_dir source_dir :
  let source_path := Path (replace_env_vars source_dir) in
  let light_path := Path light_dir in
  (∃ v, get_target_from_path light_dir source_dir = Ok v)
  ∧ (∀ rel, root light_path = root source_path ∧ tail light_path = tail source_path ++ rel →
            get_target_from_path light_dir source_dir
            = Ok (str {| root := ""; tail := rel |}))
  ∧ ((∀ rel, ¬ (root light_path = root source_path
                ∧ tail light_path = tail source_path ++ rel)) →
     get_target_from_path light_dir source_dir
     = Ok (default "" (last (tail light_path)))).
Proof.
  intros source_path light_path. subst source_path light_path. split_and!.
  - apply get_target_from_path_returns.
  - intros rel [Hr Ht]. rewrite get_target_from_path_cases.
    by rewrite (relative_to_below _ _ rel Hr Ht).
  - intros Hnot. rewrite get_target_from_path_cases.
    destruct (relative_to _ _) as [r|e] eqn:Hrel; [|done].
    apply relative_to_Ok in Hrel as (_ & Hr & Ht). by destruct (Hnot (tail r)).
Qed.

End Claims.

(** C1: for a frame list without any frame classified LIGHT,
    [check_calibration_status] answers [has_lights=False],
    [is_complete=False] and the reason "No light frames found", whatever
    darks, flats and bias frames are there; the light count is zero and the
    other three counts are the numbers of frames of each calibration
    type. *)
Theorem no_lights_verdict (tolerance : Q) (frames : list Matching.Frame) :
  Forall (λ f, Matching.type f ≠ Some Matching.LIGHT) frames →
  let st := Matching.check_calibration_status tolerance frames in
  has_lights st = false ∧ is_complete st = false
  ∧ reason st = "No light frames found"
  ∧ light_count st = 0
  ∧ dark_count st = length (filter (λ f, Matching.type f = Some Matching.DARK) frames)
  ∧ flat_count st = length (filter (λ f, Matching.type f = Some Matching.FLAT) frames)
  ∧ bias_count st = length (filter (λ f, Matching.type f = Some Matching.BIAS) frames).
Proof.
  intros Hno st. unfold st, Matching.check_calibration_status.
  rewrite (no_light_group frames Hno). simpl.
  unfold Matching.get_frames_by_type. by rewrite !filter_bool_decide.
Qed.

Lemma no_lights_verdict_witness :
  let frames := Demo.frame_of_name <$> ["D_0001.fits"; "D_0002.fits"; "F_0001.fits"; "notes.txt"] in
  let st := Matching.check_calibration_status 1%Q frames in
  has_lights st = false ∧ is_complete st = false
  ∧ reason st = "No light frames found"
  ∧ light_count st = 0
  ∧ dark_count st = length (filter (λ f, Matching.type f = Some Matching.DARK) frames)
  ∧ flat_count st = length (filter (λ f, Matching.type f = Some Matching.FLAT) frames)
  ∧ bias_count st = length (filter (λ f, Matching.type f = Some Matching.BIAS) frames).
Proof.
  apply (no_lights_verdict 1%Q
           (Demo.frame_of_name <$> ["D_0001.fits"; "D_0002.fits"; "F_0001.fits"; "notes.txt"])).
  repeat constructor; discriminate.
Defined.

(** C6: the scan does not keep to leaf directories.  On a tree where [M31]
    holds an image and a sub-directory [night2] that holds another, it
    returns both [/blink/M31] and [/blink/M31/night2], the first a proper
    ancestor of the second, although [M31] is no leaf. *)
Theorem find_light_directories_not_only_leaves :
  find_light_directories "/blink" false Demo.nested
  = (Ok ["/blink/M31"; "/blink/M31/night2"], Demo.nested, [])
  ∧ relative_to (Path "/blink/M31/night2") (Path "/blink/M31")
    = Ok {| root := ""; tail := ["night2"] |}
  ∧ Demo.lookup_path Demo.nested ["M31"]
    = Some (Dir ["L_0001.fits"] [("night2", Dir ["L_0002.fits"] [])]).
Proof. split_and!; by vm_compute. Qed.

Lemma move_attempted_iff_ready_witness :
  ∃ image_dirs evs0 results fs' evs,
    find_light_directories "/blink" false Demo.blink = (Ok image_dirs, Demo.blink, evs0)
    ∧ process_light_directories Demo.check "/blink" "/data" false false Demo.blink
      = (Ok results, fs', evs)
    ∧ (examined evs).*1 = image_dirs
    ∧ (attempts evs).*1 = (List.filter (λ p, ready p.2) (examined evs)).*1
    ∧ Forall (λ a, ∃ rel,
                root (Path a.1) = root (Path "/blink")
                ∧ tail (Path a.1) = tail (Path "/blink") ++ rel
                ∧ a.2 = str {| root := root (Path "/data"); tail := tail (Path "/data") ++ rel |})
             (attempts evs)
    ∧ ∀ image_dir results0 fs0,
        ready (Demo.check fs0 image_dir false) = false →
        ∃ results1 evs1,
          process_image_dir Demo.check "/blink" (Path "/data") false false image_dir results0 fs0
          = (Ok results1, fs0, evs1)
          ∧ attempts evs1 = [] ∧ fs_calls evs1 = [].
Proof.
  apply (move_attempted_iff_ready Demo.check "/blink" "/data" false false Demo.blink).
  reflexivity.
Defined.

Lemma counts_and_flag_are_diagnostic_only_witness :
  ∃ results fs' evs1 evs2,
    process_light_directories Demo.check "/blink" "/data" true false Demo.blink
    = (Ok results, fs', evs1)
    ∧ process_light_directories Demo.check_blank "/blink" "/data" true false Demo.blink
      = (Ok results, fs', evs2)
    ∧ actions evs1 = actions evs2
    ∧ attempts evs1 = attempts evs2.
Proof.
  apply (counts_and_flag_are_diagnostic_only Demo.check Demo.check_blank
           "/blink" "/data" true false Demo.blink).
  intros fs0 d. repeat split.
Defined.

(** * Further properties of the module *)

Section MoreTraceFacts.

Lemma printed_app l1 l2 : printed (l1 ++ l2) = printed l1 ++ printed l2.
Proof. apply omap_app. Qed.


Lemma count_verdicts_app kind ex1 ex2 :
  count_verdicts kind (ex1 ++ ex2) = count_verdicts kind ex1 + count_verdicts kind ex2.
Proof. unfold count_verdicts. by rewrite List.filter_app, length_app. Qed.

Lemma count_verdicts_one kind d st :
  count_verdicts kind [(d, st)] = if kind st then 1 else 0.
Proof. unfold count_verdicts. simpl. by destruct (kind st). Qed.



End MoreTraceFacts.

Section MoreOrchestrator.
Context `{Platform}.

(** The counters after the loop, verdict kind by verdict kind. *)
Lemma loop_counts check source_dir dest_path debug dry_run l r fs r' fs' evs :
  loop_run (process_image_dir check source_dir dest_path debug dry_run) l r fs r' fs' evs →
  skipped_no_lights r' = skipped_no_lights r + count_verdicts lacks_lights (examined evs)
  ∧ skipped_no_darks r' = skipped_no_darks r + count_verdicts blames_dark (examined evs)
  ∧ skipped_no_flats r' = skipped_no_flats r + count_verdicts blames_flat (examined evs)
  ∧ skipped_no_bias r' = skipped_no_bias r + count_verdicts blames_bias (examined evs)
  ∧ moved r' + errors r' = moved r + errors r + count_verdicts ready (examined evs)
  ∧ total r' + count_verdicts uncounted (examined evs) = total r + length l.
Proof.
  induction 1 as [acc fs|x l acc fs acc1 fs1 evs1 acc2 fs2 evs2 Hbody Hrun IH].
  { unfold count_verdicts. simpl. lia. }
  destruct (process_image_dir_run check source_dir dest_path debug dry_run x acc fs)
    as (rel & acc1' & fs1' & evs1' & _ & Hbody' & Hex & _ & Hcases).
  rewrite Hbody in Hbody'. simplify_eq.
  rewrite examined_app, !count_verdicts_app, Hex, !count_verdicts_one.
  destruct IH as (IH1 & IH2 & IH3 & IH4 & IH5 & IH6).
  set (n1 := count_verdicts lacks_lights (examined evs2)) in *.
  set (n2 := count_verdicts blames_dark (examined evs2)) in *.
  set (n3 := count_verdicts blames_flat (examined evs2)) in *.
  set (n4 := count_verdicts blames_bias (examined evs2)) in *.
  set (n5 := count_verdicts ready (examined evs2)) in *.
  set (n6 := count_verdicts uncounted (examined evs2)) in *.
  clearbody n1 n2 n3 n4 n5 n6.
  unfold lacks_lights, blames_dark, blames_flat, blames_bias, uncounted, incomplete,
    ready, cites_type.
  destruct Hcases as [(Hl & Hr & _)|[(Hl & Hc & Hr & _)
    |(Hl & Hc & b & _ & _ & _ & _ & _ & _ & Hr)]]; subst acc1'.
  - rewrite Hl. unfold total in *. simpl in *. lia.
  - rewrite Hl, Hc. unfold track_skip_reason in *.
    destruct (Str.contains "dark" _); [|destruct (Str.contains "flat" _);
      [|destruct (Str.contains "bias" _)]]; unfold total in *; simpl in *; lia.
  - rewrite Hl, Hc. destruct b; unfold total in *; simpl in *; lia.
Qed.

(** A dry run reads every verdict off the file system it started from, and
    nothing fails. *)
Lemma loop_dry check source_dir dest_path debug l r fs r' fs' evs :
  loop_run (process_image_dir check source_dir dest_path debug true) l r fs r' fs' evs →
  examined evs = (λ d, (d, check fs d debug)) <$> l ∧ failures evs = 0.
Proof.
  induction 1 as [acc fs|x l acc fs acc1 fs1 evs1 acc2 fs2 evs2 Hbody Hrun IH]; [done|].
  destruct (process_image_dir_run check source_dir dest_path debug true x acc fs)
    as (rel & acc1' & fs1' & evs1' & _ & Hbody' & Hex & _ & Hcases).
  rewrite Hbody in Hbody'. simplify_eq.
  rewrite examined_app, failures_app, Hex.
  assert (fs1' = fs ∧ failures evs1' = 0) as [-> Hfail].
  { destruct Hcases as [(_ & _ & -> & Ha)|[(_ & _ & _ & -> & Ha)
      |(_ & _ & b & mevs & Hm & _ & _ & Hf & _ & _)]].
    - by rewrite <- failures_actions, Ha.
    - by rewrite <- failures_actions, Ha.
    - destruct (move_directory_run x (str (truediv dest_path rel)) debug true fs)
        as (b' & fs'' & mevs' & Hm' & _ & _ & _ & Hfail' & Hdry).
      rewrite Hm in Hm'. simplify_eq. destruct (Hdry eq_refl) as (-> & -> & _).
      by rewrite Hf, Hfail'. }
  destruct IH as [-> ->]. by rewrite Hfail.
Qed.


End MoreOrchestrator.

(** ** The bookkeeping of the loop *)

Section Bookkeeping.
Context `{Platform}.


End Bookkeeping.



Section RunProperties.
Context `{Platform}.

(** X1: when the scan finds no directory with images (the source directory
    may not even exist), [process_light_directories] returns the six
    counters at zero and leaves the file system alone; it never calls the
    evaluator, attempts no move and no cleanup, and its last line of output
    is "No image directories found in" followed by the source path. *)
Theorem nothing_found_nothing_done check source_dir dest_dir debug dry_run fs :
  (find_light_directories source_dir debug fs).1.1 = Ok [] →
  ∃ evs,
    process_light_directories check source_dir dest_dir debug dry_run fs
    = (Ok results0, fs, evs)
    ∧ examined evs = [] ∧ actions evs = []
    ∧ last (printed evs)
      = Some ("No image directories found in " +:+ str (Path (replace_env_vars source_dir))).
Proof.
  intros Hnone.
  destruct (find_light_directories_run source_dir debug fs) as (evs0 & Hfind & Hex0 & Hact0).
  rewrite Hfind in Hnone. simpl in Hnone. injection Hnone as Hnone.
  rewrite Hnone in Hfind.
  unfold process_light_directories. unfold bind at 1. rewrite Hfind.
  unfold bind, print, ret. simpl. eexists. split; [reflexivity|].
  rewrite examined_app, actions_app, printed_app, Hex0, Hact0. split_and!; [done..|].
  change (printed [Print ?l]) with [l]. by rewrite last_snoc.
Qed.

(** X2: whatever the evaluator, after a run each skip counter is the number
    of examined directories whose verdict falls in its category (no lights;
    incomplete with a reason containing "dark"; else "flat"; else "bias"),
    and [moved] plus [errors] is the number of directories whose verdict
    had lights and was complete. *)
Theorem counters_are_verdict_counts check source_dir dest_dir debug dry_run fs :
  ∃ results fs' evs,
    process_light_directories check source_dir dest_dir debug dry_run fs
    = (Ok results, fs', evs)
    ∧ skipped_no_lights results = count_verdicts lacks_lights (examined evs)
    ∧ skipped_no_darks results = count_verdicts blames_dark (examined evs)
    ∧ skipped_no_flats results = count_verdicts blames_flat (examined evs)
    ∧ skipped_no_bias results = count_verdicts blames_bias (examined evs)
    ∧ moved results + errors results = count_verdicts ready (examined evs).
Proof.
  destruct (process_light_directories_run check source_dir dest_dir debug dry_run fs)
    as (image_dirs & evs0 & results & fs1 & levs & evs & _ & Hrun & Hproc & Hex & _).
  apply loop_counts in Hrun as (H1 & H2 & H3 & H4 & H5 & _).
  eexists results, _, evs. split; [apply Hproc|]. rewrite Hex. simpl in *.
  split_and!; done.
Qed.

(** X3: whatever the evaluator, the six counters of a run sum to the number
    of directories examined less those whose verdict had lights, was
    incomplete and gave a reason containing none of "dark", "flat" and
    "bias": such a directory is skipped without being counted. *)
Theorem total_misses_unnamed_reasons check source_dir dest_dir debug dry_run fs :
  ∃ results fs' evs,
    process_light_directories check source_dir dest_dir debug dry_run fs
    = (Ok results, fs', evs)
    ∧ total results + count_verdicts uncounted (examined evs) = length (examined evs).
Proof.
  destruct (process_light_directories_run check source_dir dest_dir debug dry_run fs)
    as (image_dirs & evs0 & results & fs1 & levs & evs & _ & Hrun & Hproc & Hex & _).
  pose proof (loop_facts _ _ _ _ _ _ _ _ _ _ _ Hrun) as (Hexl & _).
  apply loop_counts in Hrun as (_ & _ & _ & _ & _ & Htot).
  eexists results, _, evs. split; [apply Hproc|]. rewrite Hex.
  rewrite <- (length_fmap fst (examined levs)), Hexl. apply Htot.
Qed.

(** X4: in a dry run every verdict is read off the file system the run
    started from, nothing is counted under [errors], and [moved] is the
    number of directories whose verdict had lights and was complete: the
    dry run reports as moved what it would try to move. *)
Theorem dry_run_reports_ready_as_moved check source_dir dest_dir debug fs :
  ∃ image_dirs evs0 results evs,
    find_light_directories source_dir debug fs = (Ok image_dirs, fs, evs0)
    ∧ process_light_directories check source_dir dest_dir debug true fs
      = (Ok results, fs, evs)
    ∧ examined evs = (λ d, (d, check fs d debug)) <$> image_dirs
    ∧ errors results = 0
    ∧ moved results = count_verdicts ready (examined evs).
Proof.
  destruct (process_light_directories_run check source_dir dest_dir debug true fs)
    as (image_dirs & evs0 & results & fs1 & levs & evs & Hfind & Hrun & Hproc & Hex & _).
  pose proof (loop_facts _ _ _ _ _ _ _ _ _ _ _ Hrun) as (_ & _ & Herr & _ & _ & Hdry).
  pose proof (loop_dry _ _ _ _ _ _ _ _ _ _ Hrun) as (Hexd & Hfail).
  pose proof (loop_counts _ _ _ _ _ _ _ _ _ _ _ Hrun) as (_ & _ & _ & _ & Hmov & _).
  destruct (Hdry eq_refl) as (-> & _). simpl in Hproc, Herr, Hmov.
  exists image_dirs, evs0, results, evs. rewrite Hex.
  split_and!; [done|apply Hproc|done|lia|lia].
Qed.

(** X5: a real (not dry) [move_directory] creates the parent of the
    destination first and moves second.  If creating the parent raises,
    [shutil.move] is never called, the function prints the error and
    returns [False]; if the move raises, it prints the error and returns
    [False]; it returns [True] only when both calls succeeded. *)
Theorem move_directory_real_run source dest debug fs :
  let parent_dir := str (parent (Path dest)) in
  let src := str (Path source) in
  let dst := str (Path dest) in
  (∀ fs1 e, path_mkdir fs parent_dir = (fs1, Some e) →
     ∃ evs, move_directory source dest debug false fs = (Ok false, fs1, evs)
            ∧ fs_calls evs = [Mkdir parent_dir (Some e)]
            ∧ last (printed evs) = Some ("  ERROR moving directory: " +:+ exn_msg e))
  ∧ (∀ fs1 fs2 e, path_mkdir fs parent_dir = (fs1, None) →
       shutil_move fs1 src dst = (fs2, Some e) →
       ∃ evs, move_directory source dest debug false fs = (Ok false, fs2, evs)
              ∧ fs_calls evs = [Mkdir parent_dir None; ShutilMove src dst (Some e)]
              ∧ last (printed evs) = Some ("  ERROR moving directory: " +:+ exn_msg e))
  ∧ (∀ fs1 fs2, path_mkdir fs parent_dir = (fs1, None) →
       shutil_move fs1 src dst = (fs2, None) →
       ∃ evs, move_directory source dest debug false fs = (Ok true, fs2, evs)
              ∧ fs_calls evs = [Mkdir parent_dir None; ShutilMove src dst None]).
Proof.
  intros parent_dir src dst. subst parent_dir src dst.
  unfold move_directory, try_except_Exception, mkdir_parents, shutil_move_call,
    bind, when, print, emit, ret.
  split_and!.
  - intros fs1 e Hmk. destruct debug; simpl; rewrite Hmk; simpl;
      eexists; (split; [reflexivity|]); done.
  - intros fs1 fs2 e Hmk Hmv. destruct debug; simpl; rewrite Hmk; simpl; rewrite Hmv; simpl;
      eexists; (split; [reflexivity|]); done.
  - intros fs1 fs2 Hmk Hmv. destruct debug; simpl; rewrite Hmk; simpl; rewrite Hmv; simpl;
      eexists; (split; [reflexivity|]); done.
Qed.

(** X6: the cleanup of empty directories, when it is called, is the last
    thing a run does to the outside: every invocation of [move_directory]
    and every call it makes come before it, and none after. *)
Theorem cleanup_comes_last check source_dir dest_dir debug dry_run fs :
  ∃ results fs' evs before,
    process_light_directories check source_dir dest_dir debug dry_run fs
    = (Ok results, fs', evs)
    ∧ actions evs
      = before
        ++ (if negb dry_run && (0 <? moved results)%nat
            then [DeleteEmptyDirectories (str (Path (replace_env_vars source_dir))) debug]
            else [])
    ∧ cleanups before = []
    ∧ attempts before = attempts evs
    ∧ failures before = failures evs.
Proof.
  destruct (process_light_directories_run check source_dir dest_dir debug dry_run fs)
    as (image_dirs & evs0 & results & fs1 & levs & evs & _ & Hrun & Hproc & _ & Hact).
  apply loop_facts in Hrun as (_ & Hcl & _).
  eexists results, _, evs, (actions levs). split; [apply Hproc|].
  split; [apply Hact|]. rewrite cleanups_actions.
  rewrite <- (attempts_actions evs), <- (failures_actions evs), Hact,
    attempts_app, failures_app, !attempts_actions, !failures_actions.
  by destruct (negb dry_run && _); simpl; rewrite ?app_nil_r, ?Nat.add_0_r;
    autorewrite with trace; rewrite ?app_nil_r, ?Nat.add_0_r.
Qed.


End RunProperties.

Lemma nothing_found_nothing_done_witness :
  ∃ evs,
    process_light_directories Demo.check "/missing" "/data" false false Demo.blink
    = (Ok results0, Demo.blink, evs)
    ∧ examined evs = [] ∧ actions evs = []
    ∧ last (printed evs) = Some ("No image directories found in " +:+ str (Path "/missing")).
Proof.
  apply (nothing_found_nothing_done Demo.check "/missing" "/data" false false Demo.blink).
  reflexivity.
Defined.

Section MorePathFacts.

Lemma comp_okb_spec (x : string) : comp_okb x = true ↔ comp_ok x.
Proof.
  unfold comp_okb, comp_ok. rewrite andb_true_iff, bool_decide_eq_true. done.
Qed.

Lemma comp_ok_not_absolute (x : string) : comp_ok x → Str.startswith x "/" = false.
Proof.
  intros [[Hne _] Hns]. destruct x as [|c x]; [done|].
  change (Str.startswith (String c x) "/")
    with (if Ascii.eqb "/" c then Str.startswith x "" else false).
  destruct (Ascii.eqb_spec "/"%char c) as [<-|]; [|done].
  by simpl in Hns.
Qed.

Lemma comp_ok_split (x : string) : comp_ok x → filter keep (Str.split_sep x) = [x].
Proof.
  intros [Hk Hns]. rewrite split_sep_no_sep by done. by rewrite filter_cons_True.
Qed.

(** A single component parses to itself. *)
Lemma Path_single (x : string) : comp_ok x → Path x = {| root := ""; tail := [x] |}.
Proof.
  intros Hx. rewrite <- (Path_str {| root := ""; tail := [x] |}).
  - unfold str. simpl. rewrite str_app_nil_l. destruct Hx as [[Hne _] _].
    by destruct x.
  - by left.
  - by constructor.
Qed.

(** Paths as parsing produces them have distinct texts. *)
Lemma str_inj (p q : PurePath) :
  (root p = "" ∨ root p = "/" ∨ root p = "//") → Forall comp_ok (tail p) →
  (root q = "" ∨ root q = "/" ∨ root q = "//") → Forall comp_ok (tail q) →
  str p = str q → p = q.
Proof.
  intros Hrp Htp Hrq Htq Heq.
  rewrite <- (Path_str p), <- (Path_str q) by done. by rewrite Heq.
Qed.

(** Names joined one after the other onto a path. *)
Lemma Path_join_all (names : list string) (top : string) :
  Forall comp_ok names →
  root (Path (foldl os_path_join top names)) = root (Path top)
  ∧ tail (Path (foldl os_path_join top names)) = tail (Path top) ++ names.
Proof.
  intros Hnames. revert top. induction Hnames as [|n names Hn _ IH]; intros top; simpl.
  { by rewrite app_nil_r. }
  destruct (IH (os_path_join top n)) as [Hr Ht].
  destruct (Path_os_path_join top n (comp_ok_not_absolute n Hn)) as [Hr' Ht'].
  rewrite Hr, Ht, Hr', Ht', (comp_ok_split n Hn), <- app_assoc. done.
Qed.

Lemma os_path_join_extends (a n : string) :
  Str.startswith n "/" = false → ∃ s, os_path_join a n = a +:+ s.
Proof.
  intros Hn. unfold os_path_join. rewrite Hn.
  destruct (decide (a = "")) as [->|_]; [by exists n|].
  destruct (Str.endswith a "/"); eauto.
Qed.

Lemma join_all_extends (names : list string) (top : string) :
  Forall (λ n, Str.startswith n "/" = false) names →
  ∃ s, foldl os_path_join top names = top +:+ s.
Proof.
  intros Hnames. revert top. induction Hnames as [|n names Hn _ IH]; intros top; simpl.
  { exists "". by rewrite str_app_nil_r. }
  destruct (os_path_join_extends top n Hn) as [s1 ->].
  destruct (IH (top +:+ s1)) as [s2 ->]. exists (s1 +:+ s2). by rewrite str_app_assoc.
Qed.

(** A string is at most any string it starts. *)
Lemma le_prefix (d s : string) : String.le d (d +:+ s).
Proof.
  unfold String.le, String.leb.
  assert (String.compare d (d +:+ s) ≠ Gt) as Hcmp.
  { induction d as [|c d IH]; [by destruct s|].
    rewrite str_app_cons. simpl.
    assert (Ascii.compare c c = Eq) as ->; [|done].
    unfold Ascii.compare. by rewrite N.compare_refl. }
  by destruct (String.compare d (d +:+ s)).
Qed.

Lemma names_proper_subdirs files subdirs :
  names_proper (Dir files subdirs) = true →
  Forall (λ p, comp_ok p.1 ∧ names_proper p.2 = true) subdirs.
Proof.
  simpl. rewrite forallb_forall, Forall_forall. intros Hall p Hp%list_elem_of_In.
  apply Hall in Hp. apply andb_prop in Hp as [Hn Hsub]. by apply comp_okb_spec in Hn.
Qed.

(** In a tree of proper names a directory is the top joined with the names
    on the way down. *)
Lemma dir_in_proper top t d t' :
  dir_in top t d t' → names_proper t = true →
  ∃ names, Forall comp_ok names ∧ d = foldl os_path_join top names.
Proof.
  induction 1 as [top t|top t n sub d t' Hin Hdir IH]; intros Hok.
  { by exists []. }
  destruct t as [files subdirs]. simpl in Hin.
  pose proof (names_proper_subdirs _ _ Hok) as Hall.
  rewrite Forall_forall in Hall. destruct (Hall _ Hin) as [Hn Hsub]. simpl in *.
  destruct (IH Hsub) as (names & Hnames & ->).
  exists (n :: names). split; [by constructor|done].
Qed.

Lemma StronglySorted_lookup {A} (R : relation A) (l : list A) (i j : nat) (x y : A) :
  StronglySorted R l → i < j → l !! i = Some x → l !! j = Some y → R x y.
Proof.
  intros Hs. revert i j. induction Hs as [|a l Hs IH Hall]; intros i j Hij Hi Hj; [done|].
  destruct j as [|j]; [lia|]. simpl in Hj.
  destruct i as [|i]; simpl in Hi.
  - simplify_eq. rewrite Forall_forall in Hall. apply Hall.
    by eapply list_elem_of_lookup_2.
  - apply (IH i j); [lia|done|done].
Qed.

Lemma List_filter_sublist {A} (f : A → bool) (l : list A) : List.filter f l `sublist_of` l.
Proof.
  induction l as [|x l IH]; [done|]. simpl.
  destruct (f x); auto using sublist_skip, sublist_cons.
Qed.

End MorePathFacts.

Section MoreDestinationFacts.
Context `{Platform}.

(** In a tree of proper names the scan sends different directories to
    different destinations. *)
Lemma found_destination_inj source_dir dest_dir fs (d1 d2 : string) :
  let top := str (Path (replace_env_vars source_dir)) in
  let found := foldl scan_step ∅
                 (match scandir_tree fs top with Some t => walk top t | None => [] end) in
  match scandir_tree fs top with
  | Some t => names_proper t = true
  | None => True
  end →
  d1 ∈ sorted found → d2 ∈ sorted found →
  destination source_dir (Path (replace_env_vars dest_dir)) d1
  = destination source_dir (Path (replace_env_vars dest_dir)) d2 →
  d1 = d2.
Proof.
  intros top found Hok Hd1 Hd2 Hsame.
  assert (∀ d, d ∈ sorted found →
               ∃ names, Forall comp_ok names ∧ d = foldl os_path_join top names) as Hnames.
  { intros d Hd. apply found_spec in Hd as (t & t' & Ht & Hdir & _). fold top in Ht, Hdir.
    rewrite Ht in Hok. by apply (dir_in_proper _ _ _ _ Hdir). }
  destruct (Hnames d1 Hd1) as (names1 & Hn1 & ->).
  destruct (Hnames d2 Hd2) as (names2 & Hn2 & ->).
  destruct (Path_join_all names1 top Hn1) as [Hr1 Ht1].
  destruct (Path_join_all names2 top Hn2) as [Hr2 Ht2].
  unfold top in Hr1, Ht1, Hr2, Ht2. rewrite Path_str_Path in Hr1, Ht1, Hr2, Ht2.
  destruct (destination_below source_dir (Path (replace_env_vars dest_dir)) _ names1 Hr1 Ht1)
    as [_ Hdest1].
  destruct (destination_below source_dir (Path (replace_env_vars dest_dir)) _ names2 Hr2 Ht2)
    as [_ Hdest2].
  fold top in Hdest1, Hdest2. rewrite Hdest1, Hdest2 in Hsame.
  apply str_inj in Hsame; simpl;
    [|apply root_Path_cases|apply Forall_app; split; [apply Path_tail_ok|done]
     |apply root_Path_cases|apply Forall_app; split; [apply Path_tail_ok|done]].
  injection Hsame as Hsame. apply app_inv_head in Hsame. by rewrite Hsame.
Qed.

End MoreDestinationFacts.

Section PathProperties.
Context `{Platform}.

(** X8: when [light_dir] lies at or below the expanded [source_dir], joining
    the result of [get_target_from_path] back onto the source path gives the
    path of [light_dir]: nothing of the position below the source is
    lost. *)
Theorem target_joins_back light_dir source_dir (rel : list string) :
  let source_path := Path (replace_env_vars source_dir) in
  root (Path light_dir) = root source_path →
  tail (Path light_dir) = tail source_path ++ rel →
  ∃ target,
    get_target_from_path light_dir source_dir = Ok target
    ∧ truediv source_path target = Path light_dir.
Proof.
  intros source_path Hr Ht. subst source_path.
  exists (str {| root := ""; tail := rel |}). split.
  - rewrite get_target_from_path_cases. by rewrite (relative_to_below _ _ rel Hr Ht).
  - rewrite truediv_str_rel.
    + rewrite <- Hr, <- Ht. by destruct (Path light_dir).
    + pose proof (Path_tail_ok light_dir) as Hall. rewrite Ht in Hall.
      by apply Forall_app in Hall as [_ ?].
Qed.

(** X9: whatever [light_dir] and [source_dir] are, joining the result of
    [get_target_from_path] onto a destination path keeps that path's root
    and components in front and appends trailing components of
    [light_dir]: the target is never absolute and so never replaces the
    destination. *)
Theorem destination_keeps_dest_in_front light_dir source_dir (dest_path : PurePath) :
  ∃ target front rel,
    get_target_from_path light_dir source_dir = Ok target
    ∧ tail (Path light_dir) = front ++ rel
    ∧ truediv dest_path target
      = {| root := root dest_path; tail := tail dest_path ++ rel |}.
Proof.
  rewrite get_target_from_path_cases.
  pose proof (Path_tail_ok light_dir) as Hall.
  destruct (relative_to _ _) as [r|e] eqn:Hrel.
  - apply relative_to_Ok in Hrel as (Hroot & _ & Ht).
    exists (str r), (tail (Path (replace_env_vars source_dir))), (tail r).
    split; [done|]. split; [done|].
    rewrite Ht in Hall. apply Forall_app in Hall as [_ Hall].
    destruct r as [rr rt]. simpl in *. subst rr. by apply truediv_str_rel.
  - unfold name. destruct (last (tail (Path light_dir))) as [x|] eqn:Hlast; simpl.
    + apply last_Some in Hlast as [l Hl]. rewrite Hl in Hall.
      apply Forall_app in Hall as [_ Hx]. inversion_clear Hx as [|?? Hx' _].
      exists x, l, [x]. split; [done|]. split; [done|].
      unfold truediv. by rewrite (Path_single x Hx').
    + apply last_None in Hlast.
      exists "", [], []. split; [done|]. split; [by rewrite Hlast|].
      unfold truediv. by simpl.
Qed.


(** X11: in a tree whose directory names are proper entries (not empty, not
    a dot, no separator), two different directories returned by the scan are
    never sent to the same destination. *)
Theorem destinations_are_distinct source_dir dest_dir debug fs image_dirs i j d1 d2 :
  match scandir_tree fs (str (Path (replace_env_vars source_dir))) with
  | Some t => names_proper t = true
  | None => True
  end →
  (find_light_directories source_dir debug fs).1.1 = Ok image_dirs →
  image_dirs !! i = Some d1 → image_dirs !! j = Some d2 → i ≠ j →
  destination source_dir (Path (replace_env_vars dest_dir)) d1
  ≠ destination source_dir (Path (replace_env_vars dest_dir)) d2.
Proof.
  intros Hok Hfound Hi Hj Hij Hsame.
  destruct (find_light_directories_run source_dir debug fs) as (evs0 & Hfind & _).
  rewrite Hfind in Hfound. simpl in Hfound. injection Hfound as <-.
  destruct (sorted_spec (foldl scan_step ∅
    (match scandir_tree fs (str (Path (replace_env_vars source_dir))) with
     | Some t => walk (str (Path (replace_env_vars source_dir))) t
     | None => []
     end))) as (_ & Hnodup & _).
  assert (d1 = d2) as ->.
  { apply (found_destination_inj source_dir dest_dir fs d1 d2 Hok);
      [by eapply list_elem_of_lookup_2..|done]. }
  apply Hij. by eapply NoDup_lookup.
Qed.

(** X12: in the list the scan returns a directory comes before every other
    returned directory that is it joined with further names, so a directory
    is processed before the directories inside it. *)
Theorem parent_is_listed_first source_dir debug fs image_dirs i j d (names : list string) :
  (find_light_directories source_dir debug fs).1.1 = Ok image_dirs →
  image_dirs !! i = Some d →
  image_dirs !! j = Some (foldl os_path_join d names) →
  Forall (λ n, Str.startswith n "/" = false) names →
  foldl os_path_join d names ≠ d →
  i < j.
Proof.
  intros Hfound Hi Hj Hnames Hne.
  destruct (find_light_directories_run source_dir debug fs) as (evs0 & Hfind & _).
  rewrite Hfind in Hfound. simpl in Hfound. injection Hfound as <-.
  set (found := foldl scan_step ∅ _) in *.
  destruct (sorted_spec found) as (Hsorted & Hnodup & _).
  destruct (join_all_extends names d Hnames) as [s Hs]. rewrite Hs in *.
  destruct (decide (i < j)) as [|Hge]; [done|]. exfalso.
  destruct (decide (i = j)) as [->|Hij].
  { rewrite Hi in Hj. injection Hj as Hj. by apply Hne. }
  assert (String.le (d +:+ s) d) as Hle.
  { apply (StronglySorted_lookup _ _ j i _ _ Hsorted); [lia|done|done]. }
  apply Hne. symmetry. apply (anti_symm String.le); [apply le_prefix|done].
Qed.

(** X16: in one run no directory is handed to [move_directory] twice: the
    sources of the attempted moves are pairwise different directories of
    the scan, in the scan's order; and in a tree of proper names no two
    moves have the same destination. *)
Theorem no_move_is_repeated check source_dir dest_dir debug dry_run fs :
  match scandir_tree fs (str (Path (replace_env_vars source_dir))) with
  | Some t => names_proper t = true
  | None => True
  end →
  ∃ image_dirs evs0 results fs' evs,
    find_light_directories source_dir debug fs = (Ok image_dirs, fs, evs0)
    ∧ process_light_directories check source_dir dest_dir debug dry_run fs
      = (Ok results, fs', evs)
    ∧ (attempts evs).*1 `sublist_of` image_dirs
    ∧ NoDup (attempts evs).*1
    ∧ NoDup (attempts evs).*2.
Proof.
  intros Hok.
  destruct (process_light_directories_run check source_dir dest_dir debug dry_run fs)
    as (image_dirs & evs0 & results & fs1 & levs & evs & Hfind & Hrun & Hproc & Hex & Hact).
  pose proof (loop_facts _ _ _ _ _ _ _ _ _ _ _ Hrun) as (Hexl & _ & _ & _ & Hatt & _).
  assert (attempts evs = attempts levs) as Hatt'.
  { rewrite <- (attempts_actions evs), Hact, attempts_app, attempts_actions.
    destruct (negb dry_run && _); simpl; by rewrite app_nil_r. }
  destruct (find_light_directories_run source_dir debug fs) as (evs0' & Hfind' & _).
  rewrite Hfind in Hfind'. injection Hfind' as Hdirs _.
  destruct (sorted_spec (foldl scan_step ∅
    (match scandir_tree fs (str (Path (replace_env_vars source_dir))) with
     | Some t => walk (str (Path (replace_env_vars source_dir))) t
     | None => []
     end))) as (_ & Hnodup & _).
  rewrite <- Hdirs in Hnodup.
  set (kept := List.filter (λ p, ready p.2) (examined levs)) in *.
  assert ((attempts evs).*1 = kept.*1) as Hsrc.
  { rewrite Hatt', Hatt, <- list_fmap_compose. done. }
  assert ((attempts evs).*2
          = destination source_dir (Path (replace_env_vars dest_dir)) <$> kept.*1) as Hdst.
  { rewrite Hatt', Hatt, <- !list_fmap_compose. done. }
  assert (kept.*1 `sublist_of` image_dirs) as Hsub.
  { rewrite <- Hexl. apply fmap_sublist, List_filter_sublist. }
  assert (NoDup kept.*1) as Hnd by by eapply sublist_NoDup.
  exists image_dirs, evs0, results. eexists _, evs.
  split_and!; [done|apply Hproc|by rewrite Hsrc|by rewrite Hsrc|].
  rewrite Hdst. apply NoDup_fmap_2_strong; [|done].
  intros d1 d2 Hd1 Hd2 Hsame.
  apply (found_destination_inj source_dir dest_dir fs d1 d2 Hok); [| |done].
  - rewrite <- Hdirs. by eapply sublist_subseteq.
  - rewrite <- Hdirs. by eapply sublist_subseteq.
Qed.

End PathProperties.

Lemma target_joins_back_witness :
  ∃ target,
    get_target_from_path (H := Demo.demo_platform) "/blink/M31/night1/" "/blink" = Ok target
    ∧ truediv (Path "/blink") target = Path "/blink/M31/night1/".
Proof.
  apply (target_joins_back (H := Demo.demo_platform) "/blink/M31/night1/" "/blink"
           ["M31"; "night1"]); reflexivity.
Defined.


Lemma destinations_are_distinct_witness :
  names_proper Demo.blink = true
  ∧ destination (H := Demo.demo_platform) "/blink" (Path "/data") "/blink/M31"
    ≠ destination (H := Demo.demo_platform) "/blink" (Path "/data") "/blink/M42".
Proof.
  split; [reflexivity|].
  apply (destinations_are_distinct (H := Demo.demo_platform) "/blink" "/data" false
           Demo.blink ["/blink/M31"; "/blink/M42"; "/blink/darks"; "/blink/locked"] 0 1).
  - reflexivity.
  - by vm_compute.
  - reflexivity.
  - reflexivity.
  - lia.
Defined.

Lemma no_move_is_repeated_witness :
  ∃ image_dirs evs0 results fs' evs,
    find_light_directories "/blink" false Demo.blink = (Ok image_dirs, Demo.blink, evs0)
    ∧ process_light_directories Demo.check "/blink" "/data" false false Demo.blink
      = (Ok results, fs', evs)
    ∧ (attempts evs).*1 `sublist_of` image_dirs
    ∧ NoDup (attempts evs).*1
    ∧ NoDup (attempts evs).*2.
Proof.
  apply (no_move_is_repeated Demo.check "/blink" "/data" false false Demo.blink).
  reflexivity.
Defined.

Lemma parent_is_listed_first_witness :
  (find_light_directories (H := Demo.demo_platform) "/blink" false Demo.nested).1.1
  = Ok ["/blink/M31"; "/blink/M31/night2"]
  ∧ foldl os_path_join "/blink/M31" ["night2"] = "/blink/M31/night2"
  ∧ 0 < 1.
Proof.
  split; [by vm_compute|]. split; [reflexivity|].
  apply (parent_is_listed_first (H := Demo.demo_platform) "/blink" false Demo.nested
           ["/blink/M31"; "/blink/M31/night2"] 0 1 "/blink/M31" ["night2"]).
  - by vm_compute.
  - reflexivity.
  - reflexivity.
  - by repeat constructor.
  - discriminate.
Defined.

Section MoreScanFacts.
Context `{Platform}.

(** What one tree holds at a path, a tree with the same listing holds too. *)
Lemma same_listing_dir_l top t1 d t1' t2 :
  dir_in top t1 d t1' → same_listing t1 t2 →
  ∃ t2', dir_in top t2 d t2' ∧ files_of t1' ≡ₚ files_of t2'.
Proof.
  intros Hdir. revert t2.
  induction Hdir as [top t|top t n sub d t' Hin Hdir IH]; intros t2 Hsame.
  { exists t2. split; [constructor|]. by inversion Hsame. }
  inversion Hsame as [f1 f2 s1 s2 Hf Hl Hr]; subst. simpl in Hin.
  destruct (Hl _ Hin) as ([n' sub'] & Hin' & Hname & Hsub). simpl in *. subst n'.
  destruct (IH _ Hsub) as (t2' & Hdir' & Hfiles).
  exists t2'. split; [|done]. by econstructor.
Qed.

Lemma same_listing_dir_r top t2 d t2' t1 :
  dir_in top t2 d t2' → same_listing t1 t2 →
  ∃ t1', dir_in top t1 d t1' ∧ files_of t1' ≡ₚ files_of t2'.
Proof.
  intros Hdir. revert t1.
  induction Hdir as [top t|top t n sub d t' Hin Hdir IH]; intros t1 Hsame.
  { exists t1. split; [constructor|]. by inversion Hsame. }
  inversion Hsame as [f1 f2 s1 s2 Hf Hl Hr]; subst. simpl in Hin.
  destruct (Hr _ Hin) as ([n' sub'] & Hin' & Hname & Hsub). simpl in *. subst n'.
  destruct (IH _ Hsub) as (t1' & Hdir' & Hfiles).
  exists t1'. split; [|done]. by econstructor.
Qed.

(** The set the scan builds, in terms of the tree. *)
Lemma scan_set_spec top t (d : string) :
  d ∈ foldl scan_step ∅ (walk top t)
  ↔ ∃ t', dir_in top t d t' ∧ ∃ f, f ∈ files_of t' ∧ image_name f.
Proof.
  rewrite scan_spec. split.
  - intros [?%elem_of_empty|(dirs & files & Hin & Himg)]; [done|].
    apply walk_spec in Hin as (t' & Hdir & -> & ->).
    apply has_images_spec in Himg. eauto.
  - intros (t' & Hdir & Himg). right.
    exists (subdirs_of t').*1, (files_of t'). split.
    + apply walk_spec. eauto.
    + by apply has_images_spec.
Qed.

(** [move_directory] with and without [debug]. *)
Lemma move_directory_debug source dest dry_run fs :
  ∃ b fs' evs1 evs2,
    move_directory source dest true dry_run fs = (Ok b, fs', evs1)
    ∧ move_directory source dest false dry_run fs = (Ok b, fs', evs2)
    ∧ actions evs1 = actions evs2.
Proof.
  unfold move_directory, try_except_Exception, mkdir_parents, shutil_move_call,
    bind, when, print, emit, ret.
  destruct dry_run; simpl; [by eexists _, _, _, _|].
  destruct (path_mkdir fs _) as [fs1 [e1|]]; simpl; [by eexists _, _, _, _|].
  destruct (shutil_move fs1 _ _) as [fs2 [e2|]]; simpl; by eexists _, _, _, _.
Qed.

(** One turn of the loop with and without [debug], for an evaluator that
    ignores the flag. *)
Lemma process_image_dir_debug check source_dir dest_path dry_run x acc fs
    r1 fs1 e1 r2 fs2 e2 :
  check fs x true = check fs x false →
  process_image_dir check source_dir dest_path true dry_run x acc fs = (Ok r1, fs1, e1) →
  process_image_dir check source_dir dest_path false dry_run x acc fs = (Ok r2, fs2, e2) →
  r1 = r2 ∧ fs1 = fs2 ∧ actions e1 = actions e2.
Proof.
  intros Hcheck H1 H2.
  destruct (process_image_dir_run check source_dir dest_path true dry_run x acc fs)
    as (rel & r1' & fs1' & e1' & Hrel & H1' & _ & _ & Hcases1).
  destruct (process_image_dir_run check source_dir dest_path false dry_run x acc fs)
    as (rel' & r2' & fs2' & e2' & Hrel' & H2' & _ & _ & Hcases2).
  rewrite H1 in H1'. rewrite H2 in H2'. rewrite Hrel in Hrel'. simplify_eq.
  rewrite <- Hcheck in Hcases2.
  destruct (move_directory_debug x (str (truediv dest_path rel')) dry_run fs)
    as (b0 & fs0 & m1 & m2 & Hm1 & Hm2 & Hm).
  destruct Hcases1 as [(Hl1 & -> & -> & ->)|[(Hl1 & Hc1 & -> & -> & ->)
    |(Hl1 & Hc1 & b & mevs & Hma & -> & _ & _ & _ & ->)]];
  destruct Hcases2 as [(Hl2 & -> & -> & ->)|[(Hl2 & Hc2 & -> & -> & ->)
    |(Hl2 & Hc2 & b' & mevs' & Hmb & -> & _ & _ & _ & ->)]];
  try congruence; try done.
  rewrite Hm1 in Hma. rewrite Hm2 in Hmb. by simplify_eq.
Qed.

Lemma loop_debug check source_dir dest_path dry_run l :
  (∀ fs d, check fs d true = check fs d false) →
  ∀ r fs r1 fs1 e1 r2 fs2 e2,
    loop_run (process_image_dir check source_dir dest_path true dry_run) l r fs r1 fs1 e1 →
    loop_run (process_image_dir check source_dir dest_path false dry_run) l r fs r2 fs2 e2 →
    r1 = r2 ∧ fs1 = fs2 ∧ actions e1 = actions e2.
Proof.
  intros Hcheck. induction l as [|x l IH]; intros r fs r1 fs1 e1 r2 fs2 e2 Hrun1 Hrun2;
    inversion Hrun1; inversion Hrun2; simplify_eq; [done|].
  match goal with
  | Ha : process_image_dir _ _ _ true _ _ _ _ = _,
    Hb : process_image_dir _ _ _ false _ _ _ _ = _ |- _ =>
      destruct (process_image_dir_debug _ _ _ _ _ _ _ _ _ _ _ _ _ (Hcheck fs x) Ha Hb)
        as (-> & -> & Hact)
  end.
  match goal with
  | Ha : loop_run (process_image_dir _ _ _ true _) _ _ _ _ _ _,
    Hb : loop_run (process_image_dir _ _ _ false _) _ _ _ _ _ _ |- _ =>
      destruct (IH _ _ _ _ _ _ _ _ Ha Hb) as (-> & -> & Hact')
  end.
  by rewrite !actions_app, Hact, Hact'.
Qed.

End MoreScanFacts.

Section ScanProperties.
Context `{Platform}.

(** X13: the list the scan returns does not depend on the order in which
    directories list their entries: two file systems whose trees at the
    source path hold the same files and sub-directories, in any order, give
    the same list. *)
Theorem scan_ignores_listing_order source_dir debug fs1 fs2 t1 t2 :
  let top := str (Path (replace_env_vars source_dir)) in
  scandir_tree fs1 top = Some t1 → scandir_tree fs2 top = Some t2 →
  same_listing t1 t2 →
  (find_light_directories source_dir debug fs1).1.1
  = (find_light_directories source_dir debug fs2).1.1.
Proof.
  intros top Ht1 Ht2 Hsame.
  destruct (find_light_directories_run source_dir debug fs1) as (evs1 & -> & _).
  destruct (find_light_directories_run source_dir debug fs2) as (evs2 & -> & _).
  fold top. rewrite Ht1, Ht2. simpl. do 2 f_equal.
  apply set_eq. intros d. rewrite !scan_set_spec. split.
  - intros (t1' & Hdir & f & Hf & Himg).
    destruct (same_listing_dir_l _ _ _ _ _ Hdir Hsame) as (t2' & Hdir' & Hperm).
    exists t2'. split; [done|]. exists f. split; [by rewrite <- Hperm|done].
  - intros (t2' & Hdir & f & Hf & Himg).
    destruct (same_listing_dir_r _ _ _ _ _ Hdir Hsame) as (t1' & Hdir' & Hperm).
    exists t1'. split; [done|]. exists f. split; [by rewrite Hperm|done].
Qed.

(** X14: whether a directory counts as holding images ignores the letter
    case of its file names: two listings whose names agree once lowered get
    the same answer. *)
Theorem has_images_ignores_case (files1 files2 : list string) :
  Forall2 (λ f g, Str.lower f = Str.lower g) files1 files2 →
  has_images files1 = has_images files2.
Proof.
  intros Hsame. apply eq_true_iff_eq. rewrite !has_images_spec. unfold image_name. split.
  - intros (f & [i Hi]%list_elem_of_lookup_1 & stem & Hext).
    destruct (Forall2_lookup_l _ _ _ _ _ Hsame Hi) as (g & Hg & Hfg).
    exists g. split; [by eapply list_elem_of_lookup_2|]. exists stem. by rewrite <- Hfg.
  - intros (g & [i Hi]%list_elem_of_lookup_1 & stem & Hext).
    destruct (Forall2_lookup_r _ _ _ _ _ Hsame Hi) as (f & Hf & Hfg).
    exists f. split; [by eapply list_elem_of_lookup_2|]. exists stem. by rewrite Hfg.
Qed.

(** X15: [debug] changes only what is printed.  With an evaluator and a
    cleanup that ignore their own [debug] argument, a run with [debug] and
    a run without return the same counters, leave the same file system,
    attempt the same moves and see the same calls fail. *)
Theorem debug_only_prints check source_dir dest_dir dry_run fs :
  (∀ fs0 d, check fs0 d true = check fs0 d false) →
  (∀ fs0 r, ap_delete_empty_directories fs0 r true = ap_delete_empty_directories fs0 r false) →
  ∃ results fs' evs1 evs2,
    process_light_directories check source_dir dest_dir true dry_run fs
    = (Ok results, fs', evs1)
    ∧ process_light_directories check source_dir dest_dir false dry_run fs
      = (Ok results, fs', evs2)
    ∧ attempts evs1 = attempts evs2
    ∧ failures evs1 = failures evs2
    ∧ (cleanups evs1).*1 = (cleanups evs2).*1.
Proof.
  intros Hcheck Hclean.
  destruct (process_light_directories_run check source_dir dest_dir true dry_run fs)
    as (dirs1 & evs0 & r1 & fs1 & levs1 & evs1 & Hfind1 & Hrun1 & Hproc1 & _ & Hact1).
  destruct (process_light_directories_run check source_dir dest_dir false dry_run fs)
    as (dirs2 & evs0' & r2 & fs2 & levs2 & evs2 & Hfind2 & Hrun2 & Hproc2 & _ & Hact2).
  destruct (find_light_directories_run source_dir true fs) as (? & Hf1 & _).
  destruct (find_light_directories_run source_dir false fs) as (? & Hf2 & _).
  rewrite Hfind1 in Hf1. rewrite Hfind2 in Hf2.
  assert (dirs1 = dirs2) as -> by congruence.
  destruct (loop_debug _ _ _ _ _ Hcheck _ _ _ _ _ _ _ _ Hrun1 Hrun2) as (-> & -> & Hact).
  simpl in Hproc1, Hproc2. rewrite Hclean in Hproc1.
  eexists _, _, evs1, evs2. split_and!; [apply Hproc1|apply Hproc2| | |].
  - rewrite <- (attempts_actions evs1), <- (attempts_actions evs2), Hact1, Hact2, Hact.
    rewrite !attempts_app. by destruct (negb dry_run && _).
  - rewrite <- (failures_actions evs1), <- (failures_actions evs2), Hact1, Hact2, Hact.
    rewrite !failures_app. by destruct (negb dry_run && _).
  - rewrite <- (cleanups_actions evs1), <- (cleanups_actions evs2), Hact1, Hact2, Hact.
    rewrite !cleanups_app, !fmap_app. by destruct (negb dry_run && _).
Qed.

End ScanProperties.

Lemma scan_ignores_listing_order_witness :
  (find_light_directories (H := Demo.demo_platform) "/blink" false Samples.two_nights).1.1
  = (find_light_directories (H := Demo.demo_platform) "/blink" false
       Samples.two_nights_shuffled).1.1.
Proof.
  apply (scan_ignores_listing_order (H := Demo.demo_platform) "/blink" false
           Samples.two_nights Samples.two_nights_shuffled
           Samples.two_nights Samples.two_nights_shuffled);
    [reflexivity|reflexivity|].
  assert (∀ files1 files2, files1 ≡ₚ files2 → same_listing (Dir files1 []) (Dir files2 []))
    as Hleaf.
  { intros files1 files2 Hperm. constructor; [done|intros ? []%elem_of_nil..]. }
  constructor; [done| |].
  - intros p ->%list_elem_of_singleton. eexists. split; [by left|]. split; [done|]. simpl.
    constructor; [apply perm_swap| |].
    + intros p [ -> | ->%list_elem_of_singleton ]%elem_of_cons.
      * eexists. split; [right; by left|]. split; [done|]. by apply Hleaf.
      * eexists. split; [by left|]. split; [done|]. apply Hleaf, perm_swap.
    + intros q [ -> | ->%list_elem_of_singleton ]%elem_of_cons.
      * eexists. split; [right; by left|]. split; [done|]. apply Hleaf, perm_swap.
      * eexists. split; [by left|]. split; [done|]. by apply Hleaf.
  - intros q ->%list_elem_of_singleton. eexists. split; [by left|]. split; [done|]. simpl.
    constructor; [apply perm_swap| |].
    + intros p [ -> | ->%list_elem_of_singleton ]%elem_of_cons.
      * eexists. split; [right; by left|]. split; [done|]. by apply Hleaf.
      * eexists. split; [by left|]. split; [done|]. apply Hleaf, perm_swap.
    + intros q [ -> | ->%list_elem_of_singleton ]%elem_of_cons.
      * eexists. split; [right; by left|]. split; [done|]. apply Hleaf, perm_swap.
      * eexists. split; [by left|]. split; [done|]. by apply Hleaf.
Defined.

Lemma has_images_ignores_case_witness :
  has_images ["LIGHT_0001.FITS"; "Notes.TXT"] = has_images ["light_0001.fits"; "notes.txt"].
Proof.
  apply (has_images_ignores_case ["LIGHT_0001.FITS"; "Notes.TXT"]
           ["light_0001.fits"; "notes.txt"]).
  by repeat constructor.
Defined.

Lemma debug_only_prints_witness :
  ∃ results fs' evs1 evs2,
    process_light_directories Demo.check "/blink" "/data" true false Demo.blink
    = (Ok results, fs', evs1)
    ∧ process_light_directories Demo.check "/blink" "/data" false false Demo.blink
      = (Ok results, fs', evs2)
    ∧ attempts evs1 = attempts evs2
    ∧ failures evs1 = failures evs2
    ∧ (cleanups evs1).*1 = (cleanups evs2).*1.
Proof.
  apply (debug_only_prints Demo.check "/blink" "/data" false Demo.blink); reflexivity.
Defined.
